(** * The chat page of the admin panel: a model of [ChatInterface]

    The page keeps seven pieces of React state, talks to the backend through
    [chatApi] and re-fetches on a ten second interval.  Its asynchronous
    functions are embedded as resumable processes: a process runs until its
    next [await], is parked in a table of outstanding requests, and is
    resumed when the request settles.  The component is a transition system
    over user input, settled requests, interval ticks and unmounting. *)

From Stdlib Require Import ZArith NArith Ascii String.
From stdpp Require Import base option list gmap.

Open Scope Z_scope.

(** ** JavaScript strings

    A JavaScript string is a sequence of UTF-16 code units.  Source literals
    are ASCII and are injected with [lit]. *)

Module JS.

Definition jsstring := list N.

Definition lit (s : string) : jsstring :=
  map N_of_ascii (list_ascii_of_string s).

(** [WhiteSpace] and [LineTerminator] of ECMAScript, the code points
    [String.prototype.trim] strips; all of them are single code units. *)
Definition is_white_space (c : N) : bool :=
  ((9 <=? c) && (c <=? 13) ||
   (c =? 32) || (c =? 160) || (c =? 5760) ||
   (8192 <=? c) && (c <=? 8202) ||
   (c =? 8232) || (c =? 8233) || (c =? 8239) || (c =? 8287) ||
   (c =? 12288) || (c =? 65279))%N.

Fixpoint trimStart (s : jsstring) : jsstring :=
  match s with
  | [] => []
  | c :: r => if is_white_space c then trimStart r else s
  end.

Definition trimEnd (s : jsstring) : jsstring := rev (trimStart (rev s)).

Definition trim (s : jsstring) : jsstring := trimEnd (trimStart s).

(** Truthiness of a string: only the empty string is falsy. *)
Definition truthy (s : jsstring) : bool :=
  match s with [] => false | _ :: _ => true end.

(** The words "empty or whitespace-only". *)
Definition blank (s : jsstring) : bool := forallb is_white_space s.

End JS.

Import JS.

(** ** Data transferred over the API (the interfaces of the chat page) *)

Module User.
Record t := mk {
  id : Z;
  phone : jsstring;
  name : option jsstring;
  bot_paused : bool;
  trip_status : jsstring;
  last_message_at : option jsstring }.
End User.

Inductive SenderType := user | bot | admin.

Module Message.
Record t := mk {
  id : Z;
  user_id : Z;
  content : jsstring;
  sender_type : SenderType;
  timestamp : jsstring;
  is_read : bool }.
End Message.

Module Conversation.
Record t := mk {
  user : User.t;
  latest_message : option Message.t;
  unread_count : Z }.
End Conversation.

(** The JSON bodies the page reads fields from. *)
Module ConversationsPage.
Record t := mk { data : list Conversation.t; total : Z }.
End ConversationsPage.

Module ThreadPage.
Record t := mk { user : User.t; messages : list Message.t }.
End ThreadPage.

Module ToggleResult.
Record t := mk { message : jsstring }.
End ToggleResult.

(** ** The calls of [chatApi] the page makes, with all arguments spelled out *)

Inductive ApiCall :=
| getConversations (page perPage : Z) (unreadOnly : bool)
| getMessages (userId page perPage : Z)
| sendMessage (userId : Z) (content : jsstring) (sendWhatsapp : bool)
| toggleBotStatus (userId : Z)
| markAsRead (userId : Z).

(** What a request settles with: a rejection (transport error or non-2xx
    status, [fetchJson] throws) or the parsed JSON body. *)
Inductive Response :=
| RConversations (d : ConversationsPage.t)
| RThread (d : ThreadPage.t)
| RToggle (d : ToggleResult.t)
| RJson.

Inductive Outcome :=
| Rejected
| Resolved (r : Response).

(** ** React state of [ChatInterface] *)

Record View := mkView {
  conversations : list Conversation.t;
  selectedUser : option User.t;
  messages : list Message.t;
  newMessage : jsstring;
  loading : bool;
  sending : bool;
  sendViaWhatsApp : bool }.

Inductive NotifyType := error | success.

(** Synchronous effects a handler performs between two awaits. *)
Inductive Action :=
| setConversations (l : list Conversation.t)
| setSelectedUser (u : User.t)
| setMessages (l : list Message.t)
| setNewMessage (s : jsstring)
| setLoading (b : bool)
| setSending (b : bool)
| setSendViaWhatsApp (b : bool)
| notify (msg : jsstring) (ty : NotifyType)
| navigate (chatUserId : Z).

(** ** Asynchronous functions as resumable processes

    [Call p k] is a call of an async function whose promise is dropped: [p]
    runs up to its first await and [k] goes on at once.  Each [Await...]
    node is one awaited [chatApi] call with the code after it ([kOk]) and
    the enclosing [catch] ([kErr]). *)

Inductive Async :=
| Done
| Act (a : Action) (k : Async)
| Call (p : Async) (k : Async)
| AwaitConversations (page perPage : Z) (unreadOnly : bool)
    (kOk : ConversationsPage.t -> Async) (kErr : Async)
| AwaitMessages (userId page perPage : Z)
    (kOk : ThreadPage.t -> Async) (kErr : Async)
| AwaitSend (userId : Z) (content : jsstring) (sendWhatsapp : bool)
    (kOk : Async) (kErr : Async)
| AwaitToggle (userId : Z) (kOk : ToggleResult.t -> Async) (kErr : Async)
| AwaitMarkRead (userId : Z) (kOk : Async) (kErr : Async).

(** [seq p k]: [await p(); k] for an async function [p] that never rejects
    (every function of the page catches its own failures). *)
Fixpoint seq (p k : Async) : Async :=
  match p with
  | Done => k
  | Act a p' => Act a (seq p' k)
  | Call q p' => Call q (seq p' k)
  | AwaitConversations pg pp uo kOk kErr =>
      AwaitConversations pg pp uo (fun d => seq (kOk d) k) (seq kErr k)
  | AwaitMessages u pg pp kOk kErr =>
      AwaitMessages u pg pp (fun d => seq (kOk d) k) (seq kErr k)
  | AwaitSend u c w kOk kErr => AwaitSend u c w (seq kOk k) (seq kErr k)
  | AwaitToggle u kOk kErr => AwaitToggle u (fun d => seq (kOk d) k) (seq kErr k)
  | AwaitMarkRead u kOk kErr => AwaitMarkRead u (seq kOk k) (seq kErr k)
  end.

Declare Scope async_scope.
Delimit Scope async_scope with async.
Bind Scope async_scope with Async.
Arguments Act a k%_async.
Arguments Call p%_async k%_async.
Arguments AwaitConversations page perPage unreadOnly kOk%_async kErr%_async.
Arguments AwaitMessages userId page perPage kOk%_async kErr%_async.
Arguments AwaitSend userId content sendWhatsapp kOk%_async kErr%_async.
Arguments AwaitToggle userId kOk%_async kErr%_async.
Arguments AwaitMarkRead userId kOk%_async kErr%_async.
Notation "a ;; k" := (Act a k%async)
  (at level 100, k at level 200, right associativity) : async_scope.
Notation "'call' p ;; k" := (Call p%async k%async)
  (at level 100, p at level 99, k at level 200, right associativity) : async_scope.
Notation "'await_' p ;; k" := (seq p%async k%async)
  (at level 100, p at level 99, k at level 200, right associativity) : async_scope.

(** ** The functions of [ChatInterface] *)

Definition fetchConversations : Async :=
  AwaitConversations 1 50 false
    (fun data => (setConversations (ConversationsPage.data data) ;; Done)%async)
    (notify (lit "Failed to load conversations") error ;; Done).

Definition fetchMessages (uid : Z) : Async :=
  AwaitMessages uid 1 100
    (fun data =>
       (setSelectedUser (ThreadPage.user data) ;;
        setMessages (ThreadPage.messages data) ;;
        AwaitMarkRead uid
          (call fetchConversations ;; Done)
          (notify (lit "Failed to load messages") error ;; Done))%async)
    (notify (lit "Failed to load messages") error ;; Done).

Definition handleSend (v : View) : Async :=
  if negb (truthy (trim (newMessage v))) || negb (bool_decide (is_Some (selectedUser v)))
  then Done
  else
    match selectedUser v with
    | None => Done
    | Some su =>
        (setSending true ;;
         AwaitSend (User.id su) (newMessage v) (sendViaWhatsApp v)
           (setNewMessage [] ;;
            await_ (fetchMessages (User.id su)) ;;
            notify (lit "Message sent") success ;;
            setSending false ;; Done)
           (notify (lit "Failed to send message") error ;;
            setSending false ;; Done))%async
    end.

Definition handleToggleBot (v : View) : Async :=
  match selectedUser v with
  | None => Done
  | Some su =>
      AwaitToggle (User.id su)
        (fun result =>
           (notify (ToggleResult.message result) success ;;
            call (fetchMessages (User.id su)) ;;
            call fetchConversations ;; Done)%async)
        (notify (lit "Failed to toggle bot status") error ;; Done)
  end.

(** The effect on [userId]: the initial load.  The route parameter is kept
    as the number [parseInt] reads back from it; see the note on routes
    below. *)
Definition init (userId : option Z) : Async :=
  (setLoading true ;;
   await_ fetchConversations ;;
   match userId with
   | Some uid => await_ (fetchMessages uid) ;; setLoading false ;; Done
   | None => setLoading false ;; Done
   end)%async.

(** The interval callback, closed over the [selectedUser] of the render that
    set the interval up. *)
Definition pollCallback (su : option User.t) : Async :=
  (call fetchConversations ;;
   match su with
   | Some u => call (fetchMessages (User.id u)) ;; Done
   | None => Done
   end)%async.

(** [onClick] of a conversation item. *)
Definition onClickConversation (conv : Conversation.t) : Async :=
  (navigate (User.id (Conversation.user conv)) ;;
   call (fetchMessages (User.id (Conversation.user conv))) ;; Done)%async.

(** ** The component and its environment

    [userId] is the route parameter; [selectedUserRef] counts the objects
    stored in [selectedUser] so far and stands for the identity React
    compares in the dependency list of the polling effect; [interval] is the
    identifier held by the cleanup closure of that effect; [timers] is the
    browser's table of live intervals, each with the [selectedUser] its
    callback closed over; [pending] holds every process parked at an await,
    under the number of its request; [requests] and [notifications] log the
    calls made and the toasts shown.  After unmounting nothing is rendered
    any more; the record then keeps what the setters wrote.

    Routes.  The source holds the route parameter as a string: the effect
    of the initial load depends on that string, the load reads the id from
    it with [parseInt], and a click writes it as [/chat/${id}].  Here
    [userId] holds the id instead.  The two agree on the routes the
    application writes itself, [/chat] and [/chat/] followed by the decimal
    digits of an id, for ids that print as such digits ([plain_id] below):
    there the string changes exactly when the id does, and the id read
    back is the id written.  Not covered are an address typed by hand that
    spells an id in another way ([/chat/01]: a click on that same user
    then changes the string and runs the initial load again), a parameter
    that is no number, and ids so large that they print in exponent
    form. *)

Record World := mkWorld {
  view : View;
  userId : option Z;
  mounted : bool;
  selectedUserRef : nat;
  interval : option nat;
  timers : gmap nat (option User.t);
  next_timer : nat;
  pending : gmap nat Async;
  next_req : nat;
  requests : list ApiCall;
  notifications : list (jsstring * NotifyType) }.

Definition set_view (f : View -> View) (w : World) : World :=
  mkWorld (f (view w)) (userId w) (mounted w) (selectedUserRef w) (interval w)
    (timers w) (next_timer w) (pending w) (next_req w) (requests w)
    (notifications w).

Definition apply (a : Action) (w : World) : World :=
  match a with
  | setConversations l =>
      set_view (fun v => mkView l (selectedUser v) (messages v) (newMessage v)
                           (loading v) (sending v) (sendViaWhatsApp v)) w
  | setSelectedUser u =>
      mkWorld
        (mkView (conversations (view w)) (Some u) (messages (view w))
           (newMessage (view w)) (loading (view w)) (sending (view w))
           (sendViaWhatsApp (view w)))
        (userId w) (mounted w) (S (selectedUserRef w)) (interval w)
        (timers w) (next_timer w) (pending w) (next_req w) (requests w)
        (notifications w)
  | setMessages l =>
      set_view (fun v => mkView (conversations v) (selectedUser v) l
                           (newMessage v) (loading v) (sending v)
                           (sendViaWhatsApp v)) w
  | setNewMessage s =>
      set_view (fun v => mkView (conversations v) (selectedUser v) (messages v)
                           s (loading v) (sending v) (sendViaWhatsApp v)) w
  | setLoading b =>
      set_view (fun v => mkView (conversations v) (selectedUser v) (messages v)
                           (newMessage v) b (sending v) (sendViaWhatsApp v)) w
  | setSending b =>
      set_view (fun v => mkView (conversations v) (selectedUser v) (messages v)
                           (newMessage v) (loading v) b (sendViaWhatsApp v)) w
  | setSendViaWhatsApp b =>
      set_view (fun v => mkView (conversations v) (selectedUser v) (messages v)
                           (newMessage v) (loading v) (sending v) b) w
  | notify msg ty =>
      mkWorld (view w) (userId w) (mounted w) (selectedUserRef w) (interval w)
        (timers w) (next_timer w) (pending w) (next_req w) (requests w)
        (notifications w ++ [(msg, ty)])
  | navigate uid =>
      mkWorld (view w) (Some uid) (mounted w) (selectedUserRef w) (interval w)
        (timers w) (next_timer w) (pending w) (next_req w) (requests w)
        (notifications w)
  end.

(** Issue request [c] and park [p] until it settles. *)
Definition suspend (p : Async) (c : ApiCall) (w : World) : World :=
  mkWorld (view w) (userId w) (mounted w) (selectedUserRef w) (interval w)
    (timers w) (next_timer w) (<[next_req w := p]> (pending w))
    (S (next_req w)) (requests w ++ [c]) (notifications w).

(** Run a process up to its next await. *)
Fixpoint run (p : Async) (w : World) : World :=
  match p with
  | Done => w
  | Act a k => run k (apply a w)
  | Call q k => run k (run q w)
  | AwaitConversations pg pp uo _ _ => suspend p (getConversations pg pp uo) w
  | AwaitMessages u pg pp _ _ => suspend p (getMessages u pg pp) w
  | AwaitSend u c wa _ _ => suspend p (sendMessage u c wa) w
  | AwaitToggle u _ _ => suspend p (toggleBotStatus u) w
  | AwaitMarkRead u _ _ => suspend p (markAsRead u) w
  end.

(** The code that goes on when the awaited call settles with [o].  A body
    that is not the one the endpoint returns resumes nothing; the bodies of
    [sendMessage] and [markAsRead] are not looked at. *)
Definition resume (p : Async) (o : Outcome) : option Async :=
  match p, o with
  | AwaitConversations _ _ _ kOk _, Resolved (RConversations d) => Some (kOk d)
  | AwaitConversations _ _ _ _ kErr, Rejected => Some kErr
  | AwaitMessages _ _ _ kOk _, Resolved (RThread d) => Some (kOk d)
  | AwaitMessages _ _ _ _ kErr, Rejected => Some kErr
  | AwaitSend _ _ _ kOk _, Resolved _ => Some kOk
  | AwaitSend _ _ _ _ kErr, Rejected => Some kErr
  | AwaitToggle _ kOk _, Resolved (RToggle d) => Some (kOk d)
  | AwaitToggle _ _ kErr, Rejected => Some kErr
  | AwaitMarkRead _ kOk _, Resolved _ => Some kOk
  | AwaitMarkRead _ _ kErr, Rejected => Some kErr
  | _, _ => None
  end.

Definition unpark (id : nat) (w : World) : World :=
  mkWorld (view w) (userId w) (mounted w) (selectedUserRef w) (interval w)
    (timers w) (next_timer w) (delete id (pending w)) (next_req w)
    (requests w) (notifications w).

Definition settle (id : nat) (o : Outcome) (w : World) : World :=
  match pending w !! id with
  | None => w
  | Some p =>
      match resume p o with
      | None => w
      | Some k => run k (unpark id w)
      end
  end.

(** [clearInterval(interval)], the cleanup of the polling effect. *)
Definition clearPolling (w : World) : World :=
  mkWorld (view w) (userId w) (mounted w) (selectedUserRef w) None
    (match interval w with Some t => delete t (timers w) | None => timers w end)
    (next_timer w) (pending w) (next_req w) (requests w) (notifications w).

(** [setInterval(callback, 10000)], the body of the polling effect. *)
Definition startPolling (w : World) : World :=
  mkWorld (view w) (userId w) (mounted w) (selectedUserRef w)
    (Some (next_timer w))
    (<[next_timer w := selectedUser (view w)]> (timers w))
    (S (next_timer w)) (pending w) (next_req w) (requests w) (notifications w).

Definition unmount (w : World) : World :=
  let w' := clearPolling w in
  mkWorld (view w') (userId w') false (selectedUserRef w') (interval w')
    (timers w') (next_timer w') (pending w') (next_req w') (requests w')
    (notifications w').

(** ** Events *)

Inductive Event :=
| ClickRefresh
| ClickConversation (i : nat)
| ToggleBot
| ChangeSendViaWhatsApp (b : bool)
| ChangeText (s : jsstring)
| PressEnter
| ClickSend
| Settle (id : nat) (o : Outcome)
| Tick (t : nat)
| Unmount.

(** What the rendered page lets the admin do: while [loading] only the
    spinner is rendered, the chat pane needs a [selectedUser], the text
    field is disabled while [sending] and the send button while [sending]
    or when the trimmed text is empty. *)
Definition enabled (w : World) (e : Event) : bool :=
  let shown := mounted w && negb (loading (view w)) in
  let chat := shown && bool_decide (is_Some (selectedUser (view w))) in
  match e with
  | ClickRefresh | ClickConversation _ => shown
  | ToggleBot | ChangeSendViaWhatsApp _ => chat
  | ChangeText _ | PressEnter => chat && negb (sending (view w))
  | ClickSend =>
      chat && negb (sending (view w) || negb (truthy (trim (newMessage (view w)))))
  | Settle _ _ | Tick _ => true
  | Unmount => mounted w
  end.

(** The handler an event runs. *)
Definition dispatch (w : World) (e : Event) : World :=
  match e with
  | ClickRefresh => run fetchConversations w
  | ClickConversation i =>
      match conversations (view w) !! i with
      | Some conv => run (onClickConversation conv) w
      | None => w
      end
  | ToggleBot => run (handleToggleBot (view w)) w
  | ChangeSendViaWhatsApp b => apply (setSendViaWhatsApp b) w
  | ChangeText s => apply (setNewMessage s) w
  | PressEnter | ClickSend => run (handleSend (view w)) w
  | Settle id o => settle id o w
  | Tick t =>
      match timers w !! t with
      | Some su => run (pollCallback su) w
      | None => w
      end
  | Unmount => unmount w
  end.

(** The effects React runs after the render that follows a handler: the
    initial load when [userId] changed, the polling effect (cleanup, then
    body) when [selectedUser] holds another object. *)
Definition effects (old new : World) : World :=
  let w1 :=
    if mounted new && negb (bool_decide (userId old = userId new))
    then run (init (userId new)) new else new in
  if mounted w1 && negb (bool_decide (selectedUserRef old = selectedUserRef w1))
  then startPolling (clearPolling w1) else w1.

Definition step (w : World) (e : Event) : World :=
  if enabled w e then effects w (dispatch w e) else w.

Definition steps (w : World) (es : list Event) : World := fold_left step es w.

Definition initialView : View := mkView [] None [] [] true false true.

(** First render at route [/chat] ([None]) or [/chat/:userId], the
    parameter being the decimal digits of the id: both effects run. *)
Definition mount (route : option Z) : World :=
  startPolling
    (run (init route)
       (mkWorld initialView route true 0 None ∅ 0 ∅ 0 [] [])).

Definition reachable (w : World) : Prop :=
  exists route es, w = steps (mount route) es.

(** ** Sample data and runs

    Two customers with one message each, the bodies the backend returns for
    them, and runs of the page over these. *)

Module Sample.

Definition alice : User.t :=
  User.mk 1 (lit "911") (Some (lit "Alice")) false (lit "active") None.
Definition bob : User.t :=
  User.mk 2 (lit "922") None false (lit "upcoming") None.

Definition msgA : Message.t :=
  Message.mk 10 1 (lit "where is my bus") user (lit "2024-01-01T10:00:00") false.
Definition msgB : Message.t :=
  Message.mk 20 2 (lit "change my seat") user (lit "2024-01-01T10:05:00") false.

Definition convs : ConversationsPage.t :=
  ConversationsPage.mk
    [Conversation.mk alice (Some msgA) 1; Conversation.mk bob (Some msgB) 1] 2.
Definition threadA : ThreadPage.t := ThreadPage.mk alice [msgA].
Definition threadB : ThreadPage.t := ThreadPage.mk bob [msgB].

Definition okConvs : Outcome := Resolved (RConversations convs).
Definition okA : Outcome := Resolved (RThread threadA).
Definition okB : Outcome := Resolved (RThread threadB).
Definition ok : Outcome := Resolved RJson.

(** The page opened at [/chat/1] and loaded: requests 0 (conversations),
    1 (thread of Alice), 2 (mark-read) and 3 (conversations) settled. *)
Definition openedTrace : list Event :=
  [Settle 0 okConvs; Settle 1 okA; Settle 2 ok; Settle 3 okConvs].
Definition opened : World := Eval vm_compute in steps (mount (Some 1)) openedTrace.

(** The admin typed a message and pressed the send button; request 4, the
    post, is in flight. *)
Definition midSend : World :=
  Eval vm_compute in steps opened [ChangeText (lit "Hello"); ClickSend].

(** A draft typed, not yet sent. *)
Definition drafted : World :=
  Eval vm_compute in steps opened [ChangeText (lit "Hello")].

(** Only blanks in the compose box. *)
Definition blankDraft : World :=
  Eval vm_compute in steps opened [ChangeText (lit "  ")].

(** A draft but no conversation selected. *)
Definition noSelection : World :=
  Eval vm_compute in apply (setNewMessage (lit "Hello")) (mount None).

(** The admin re-clicks Alice (request 4, her thread), then clicks Bob
    (route [/chat/2]; request 5, his thread; request 6, the conversations
    of the initial load, which leads to request 8, his thread again).
    Everything for Bob settles first; request 4 settles last. *)
Definition staleTrace : list Event :=
  openedTrace ++
  [ClickConversation 0; ClickConversation 1;
   Settle 5 okB; Settle 6 okConvs; Settle 8 okB; Settle 7 ok; Settle 9 ok;
   Settle 10 okConvs; Settle 11 okConvs;
   Settle 4 okA; Settle 12 ok; Settle 13 okConvs].

(** The same run up to the moment request 4 is about to settle. *)
Definition beforeStale : World :=
  Eval vm_compute in
    steps opened
      [ClickConversation 0; ClickConversation 1;
       Settle 5 okB; Settle 6 okConvs; Settle 8 okB; Settle 7 ok; Settle 9 ok;
       Settle 10 okConvs; Settle 11 okConvs].

Definition staleRun : World :=
  Eval vm_compute in steps (mount (Some 1)) staleTrace.

(** A run that tears the polling interval down: the page is unmounted
    while the thread request of the last tick is in flight. *)
Definition unmountTrace : list Event := openedTrace ++ [Tick 1].

(** A body in which the backend pairs Alice with a message of Bob, and
    the page opened at [/chat/1] receiving it for its thread request. *)
Definition mixedThread : ThreadPage.t := ThreadPage.mk alice [msgB].
Definition mixedTrace : list Event :=
  [Settle 0 okConvs; Settle 1 (Resolved (RThread mixedThread))].
Definition mixedRun : World :=
  Eval vm_compute in steps (mount (Some 1)) mixedTrace.

End Sample.

(** ** What one run of a function does, seen from outside

    [observe p script] lists, in order, the state updates and requests of
    one run of [p] when its successive awaits settle with the outcomes of
    [script]; the run stops where the script ends, or where an outcome is
    not a body of the awaited endpoint.  A function called without await
    contributes what it does up to its first await. *)

Inductive Obs :=
| Did (a : Action)
| Requested (c : ApiCall).

Fixpoint observe (p : Async) (script : list Outcome) : list Obs :=
  match p with
  | Done => []
  | Act a k => Did a :: observe k script
  | Call q k => observe q [] ++ observe k script
  | AwaitConversations pg pp uo kOk kErr =>
      Requested (getConversations pg pp uo) ::
      match script with
      | Rejected :: rest => observe kErr rest
      | Resolved (RConversations d) :: rest => observe (kOk d) rest
      | _ => []
      end
  | AwaitMessages u pg pp kOk kErr =>
      Requested (getMessages u pg pp) ::
      match script with
      | Rejected :: rest => observe kErr rest
      | Resolved (RThread d) :: rest => observe (kOk d) rest
      | _ => []
      end
  | AwaitSend u c wa kOk kErr =>
      Requested (sendMessage u c wa) ::
      match script with
      | Rejected :: rest => observe kErr rest
      | Resolved _ :: rest => observe kOk rest
      | [] => []
      end
  | AwaitToggle u kOk kErr =>
      Requested (toggleBotStatus u) ::
      match script with
      | Rejected :: rest => observe kErr rest
      | Resolved (RToggle d) :: rest => observe (kOk d) rest
      | _ => []
      end
  | AwaitMarkRead u kOk kErr =>
      Requested (markAsRead u) ::
      match script with
      | Rejected :: rest => observe kErr rest
      | Resolved _ :: rest => observe kOk rest
      | [] => []
      end
  end.

Definition requested (l : list Obs) : list ApiCall :=
  omap (fun o => match o with Requested c => Some c | Did _ => None end) l.

Definition is_markAsRead (c : ApiCall) : bool :=
  match c with markAsRead _ => true | _ => false end.

Definition is_getConversations (c : ApiCall) : bool :=
  match c with getConversations _ _ _ => true | _ => false end.

(** The thread fetch, the first await of [fetchMessages], succeeded. *)
Definition thread_succeeded (script : list Outcome) : bool :=
  match script with Resolved (RThread _) :: _ => true | _ => false end.

(** ** Shape of the processes the page parks

    No process of the page writes [selectedUser] or [messages] except right
    after a thread request resolves, where it stores the user and the
    messages of that one body and then awaits again. *)

Definition quiet (a : Action) : Prop :=
  match a with
  | setSelectedUser _ | setMessages _ => False
  | _ => True
  end.

Definition suspended (p : Async) : Prop :=
  match p with
  | Done | Act _ _ | Call _ _ => False
  | _ => True
  end.

Inductive wf : Async -> Prop :=
| wf_Done : wf Done
| wf_Act a k : quiet a -> wf k -> wf (Act a k)
| wf_Call p k : wf p -> wf k -> wf (Call p k)
| wf_AwaitConversations pg pp uo kOk kErr :
    (forall d, wf (kOk d)) -> wf kErr ->
    wf (AwaitConversations pg pp uo kOk kErr)
| wf_AwaitMessages u pg pp kOk kErr :
    (forall d, commits d (kOk d)) -> wf kErr ->
    wf (AwaitMessages u pg pp kOk kErr)
| wf_AwaitSend u c wa kOk kErr :
    wf kOk -> wf kErr -> wf (AwaitSend u c wa kOk kErr)
| wf_AwaitToggle u kOk kErr :
    (forall d, wf (kOk d)) -> wf kErr -> wf (AwaitToggle u kOk kErr)
| wf_AwaitMarkRead u kOk kErr :
    wf kOk -> wf kErr -> wf (AwaitMarkRead u kOk kErr)
with commits : ThreadPage.t -> Async -> Prop :=
| commits_pair d k :
    suspended k -> wf k ->
    commits d (Act (setSelectedUser (ThreadPage.user d))
                 (Act (setMessages (ThreadPage.messages d)) k)).

Scheme wf_mut := Induction for wf Sort Prop
  with commits_mut := Induction for commits Sort Prop.

(** What the chat pane shows: the header and the messages. *)
Definition thread (w : World) : option User.t * list Message.t :=
  (selectedUser (view w), messages (view w)).

Definition parked_wf (w : World) : Prop :=
  map_Forall (fun _ p => wf p) (pending w).

(** The thread bodies delivered by a sequence of events, and the contract
    of [/users/{id}/messages]: the messages of a body are messages of the
    user of that body. *)
Definition delivered (es : list Event) (d : ThreadPage.t) : Prop :=
  exists id, Settle id (Resolved (RThread d)) ∈ es.

Definition thread_of_its_user (d : ThreadPage.t) : Prop :=
  Forall (fun m => Message.user_id m = User.id (ThreadPage.user d))
    (ThreadPage.messages d).

(** ** The polling interval: what is live is what the effect holds *)

(** The fields the polling effect and unmounting write. *)
Definition polling (w : World) : bool * option nat * gmap nat (option User.t) * nat :=
  (mounted w, interval w, timers w, next_timer w).

Definition cleared (iv : option nat) (tm : gmap nat (option User.t)) :
    gmap nat (option User.t) :=
  match iv with Some t => delete t tm | None => tm end.

Definition timers_inv (w : World) : Prop :=
  (forall t, is_Some (timers w !! t) -> interval w = Some t) /\
  (forall t, interval w = Some t -> (t < next_timer w)%nat) /\
  (mounted w = false -> interval w = None).

(** Interval [t] was created and has been torn down. *)
Definition torn_down (t : nat) (w : World) : Prop :=
  (t < next_timer w)%nat /\ interval w <> Some t.


(** ** Where the conversation list is written

    No process of the page writes [conversations] except right after a
    conversations request resolves, where it stores the list of that
    body. *)

Definition keeps_list (a : Action) : Prop :=
  match a with setConversations _ => False | _ => True end.

Inductive cwf : Async -> Prop :=
| cwf_Done : cwf Done
| cwf_Act a k : keeps_list a -> cwf k -> cwf (Act a k)
| cwf_Call p k : cwf p -> cwf k -> cwf (Call p k)
| cwf_AwaitConversations pg pp uo kOk kErr :
    (forall d, replaces d (kOk d)) -> cwf kErr ->
    cwf (AwaitConversations pg pp uo kOk kErr)
| cwf_AwaitMessages u pg pp kOk kErr :
    (forall d, cwf (kOk d)) -> cwf kErr ->
    cwf (AwaitMessages u pg pp kOk kErr)
| cwf_AwaitSend u c wa kOk kErr :
    cwf kOk -> cwf kErr -> cwf (AwaitSend u c wa kOk kErr)
| cwf_AwaitToggle u kOk kErr :
    (forall d, cwf (kOk d)) -> cwf kErr -> cwf (AwaitToggle u kOk kErr)
| cwf_AwaitMarkRead u kOk kErr :
    cwf kOk -> cwf kErr -> cwf (AwaitMarkRead u kOk kErr)
with replaces : ConversationsPage.t -> Async -> Prop :=
| replaces_list d k :
    cwf k ->
    replaces d (Act (setConversations (ConversationsPage.data d)) k).

Scheme cwf_mut := Induction for cwf Sort Prop
  with replaces_mut := Induction for replaces Sort Prop.

Definition parked_cwf (w : World) : Prop :=
  map_Forall (fun _ p => cwf p) (pending w).

(** ** Who writes a flag, and who clears it again

    For one boolean of the React state, [writes] tells which actions set
    it.  A process is [neutral] when it never writes the flag, never
    navigates and has no await of a kind that is not [plain].
    [releases b p] follows the flag through [p] from the value [b]: [p]
    only awaits while the flag is set, and on every way to its end the
    last write has cleared it. *)

Definition stays (a : Action) : Prop :=
  match a with navigate _ => False | _ => True end.

Inductive neutral (writes : Action -> option bool) (plain : Async -> Prop) :
    Async -> Prop :=
| neutral_Done : neutral writes plain Done
| neutral_Act a k :
    writes a = None -> stays a -> neutral writes plain k ->
    neutral writes plain (Act a k)
| neutral_Call q k :
    neutral writes plain q -> neutral writes plain k ->
    neutral writes plain (Call q k)
| neutral_AwaitConversations pg pp uo kOk kErr :
    plain (AwaitConversations pg pp uo kOk kErr) ->
    (forall d, neutral writes plain (kOk d)) -> neutral writes plain kErr ->
    neutral writes plain (AwaitConversations pg pp uo kOk kErr)
| neutral_AwaitMessages u pg pp kOk kErr :
    plain (AwaitMessages u pg pp kOk kErr) ->
    (forall d, neutral writes plain (kOk d)) -> neutral writes plain kErr ->
    neutral writes plain (AwaitMessages u pg pp kOk kErr)
| neutral_AwaitSend u c wa kOk kErr :
    plain (AwaitSend u c wa kOk kErr) ->
    neutral writes plain kOk -> neutral writes plain kErr ->
    neutral writes plain (AwaitSend u c wa kOk kErr)
| neutral_AwaitToggle u kOk kErr :
    plain (AwaitToggle u kOk kErr) ->
    (forall d, neutral writes plain (kOk d)) -> neutral writes plain kErr ->
    neutral writes plain (AwaitToggle u kOk kErr)
| neutral_AwaitMarkRead u kOk kErr :
    plain (AwaitMarkRead u kOk kErr) ->
    neutral writes plain kOk -> neutral writes plain kErr ->
    neutral writes plain (AwaitMarkRead u kOk kErr).

Inductive releases (writes : Action -> option bool) (plain : Async -> Prop) :
    bool -> Async -> Prop :=
| releases_Done : releases writes plain false Done
| releases_Act b a k :
    stays a -> releases writes plain (default b (writes a)) k ->
    releases writes plain b (Act a k)
| releases_Call b q k :
    neutral writes plain q -> releases writes plain b k ->
    releases writes plain b (Call q k)
| releases_AwaitConversations pg pp uo kOk kErr :
    (forall d, releases writes plain true (kOk d)) ->
    releases writes plain true kErr ->
    releases writes plain true (AwaitConversations pg pp uo kOk kErr)
| releases_AwaitMessages u pg pp kOk kErr :
    (forall d, releases writes plain true (kOk d)) ->
    releases writes plain true kErr ->
    releases writes plain true (AwaitMessages u pg pp kOk kErr)
| releases_AwaitSend u c wa kOk kErr :
    releases writes plain true kOk -> releases writes plain true kErr ->
    releases writes plain true (AwaitSend u c wa kOk kErr)
| releases_AwaitToggle u kOk kErr :
    (forall d, releases writes plain true (kOk d)) ->
    releases writes plain true kErr ->
    releases writes plain true (AwaitToggle u kOk kErr)
| releases_AwaitMarkRead u kOk kErr :
    releases writes plain true kOk -> releases writes plain true kErr ->
    releases writes plain true (AwaitMarkRead u kOk kErr).

(** Request numbers are handed out in order: what is parked was numbered
    before. *)
Definition fresh (w : World) : Prop :=
  forall id p, pending w !! id = Some p -> (id < next_req w)%nat.

(** [w'] comes from [w] by parking new processes, each satisfying [Q], under
    new numbers, without a change of route. *)
Definition grows (Q : nat -> Async -> Prop) (w w' : World) : Prop :=
  userId w' = userId w /\
  (next_req w <= next_req w')%nat /\
  (forall id, (id < next_req w)%nat -> pending w' !! id = pending w !! id) /\
  (forall id q, (next_req w <= id)%nat -> pending w' !! id = Some q ->
                (id < next_req w')%nat /\ Q id q).

(** At most the process parked under [o] holds the flag; every other
    parked process is neutral. *)
Definition classified (writes : Action -> option bool) (plain : Async -> Prop)
    (o : option nat) (w : World) : Prop :=
  forall id q, pending w !! id = Some q ->
    (o = Some id /\ releases writes plain true q) \/
    (o <> Some id /\ neutral writes plain q).

(** The flag is set exactly while one parked process holds it. *)
Definition flag_inv (writes : Action -> option bool) (plain : Async -> Prop)
    (vflag : View -> bool) (w : World) : Prop :=
  fresh w /\
  exists o, classified writes plain o w /\
    match o with
    | Some i => vflag (view w) = true /\ is_Some (pending w !! i)
    | None => vflag (view w) = false
    end.

Definition writes_sending (a : Action) : option bool :=
  match a with setSending b => Some b | _ => None end.

Definition writes_loading (a : Action) : option bool :=
  match a with setLoading b => Some b | _ => None end.

Definition not_a_post (p : Async) : Prop :=
  match p with AwaitSend _ _ _ _ _ => False | _ => True end.

Definition any_await (p : Async) : Prop := True.

(** ** What a row of the conversation list shows

    [ConversationItem], as far as its contents go: the unread count handed
    to the badge; the title, which is the name, or the phone number when
    the name is missing or empty; the "Paused" chip; the preview, which is
    the content of the latest message, or a placeholder when the message
    is missing or its content empty; and, when there is a latest message,
    its time.  [formatTime ts] stands for
    [format(new Date(ts), 'HH:mm')] of date-fns: it has no value where
    that call throws, which it does when [ts] is not a date, and rendering
    the row throws with it.  Colours and layout are left out. *)

Module Item.
Record t := mk {
  badge : Z;
  title : jsstring;
  pausedChip : bool;
  preview : jsstring;
  time : option jsstring }.
End Item.

Definition ConversationItem (formatTime : jsstring -> option jsstring)
    (conversation : Conversation.t) : option Item.t :=
  let u := Conversation.user conversation in
  let title :=
    match User.name u with
    | Some n => if truthy n then n else User.phone u
    | None => User.phone u
    end in
  let preview :=
    match Conversation.latest_message conversation with
    | Some m =>
        if truthy (Message.content m) then Message.content m
        else lit "No messages"
    | None => lit "No messages"
    end in
  let row := Item.mk (Conversation.unread_count conversation) title
               (User.bot_paused u) preview in
  match Conversation.latest_message conversation with
  | Some m =>
      match formatTime (Message.timestamp m) with
      | Some t => Some (row (Some t))
      | None => None
      end
  | None => Some (row None)
  end.

(** The ids a route spells back.  A click writes the route [/chat/${id}]
    and the initial load reads the id back from it with [parseInt].  An
    integer that JavaScript holds exactly prints as its decimal digits,
    which [parseInt] reads as the same number; beyond that range a number
    prints in exponent form and reads back as another one. *)
Definition plain_id (id : Z) : Prop := (- 2 ^ 53 < id < 2 ^ 53)%Z.

(** * Properties *)

(** ** Facts about [trim] *)

Section JSFacts.
Lemma trimStart_blank s : blank s = true -> trimStart s = [].
Proof.
  induction s as [|c r IH]; simpl; [done|].
  intros [Hc Hr]%andb_true_iff. rewrite Hc. auto.
Qed.

Lemma trimStart_nil_inv s : trimStart s = [] -> blank s = true.
Proof.
  induction s as [|c r IH]; simpl; [done|].
  destruct (is_white_space c); [auto | discriminate].
Qed.

Lemma blank_rev s : blank (rev s) = blank s.
Proof.
  unfold blank. induction s as [|c r IH]; simpl; [done|].
  rewrite forallb_app, IH. simpl. rewrite andb_true_r. apply andb_comm.
Qed.

Lemma blank_trimStart s : blank (trimStart s) = true -> trimStart s = [].
Proof.
  induction s as [|c r IH]; simpl; [done|].
  destruct (is_white_space c) eqn:Hc; [done|].
  simpl. rewrite Hc. discriminate.
Qed.

Lemma trim_nil_iff s : trim s = [] <-> blank s = true.
Proof.
  unfold trim, trimEnd. split.
  - intros H. apply (f_equal (@rev N)) in H. rewrite rev_involutive in H.
    simpl in H. apply trimStart_nil_inv in H. rewrite blank_rev in H.
    apply trimStart_nil_inv. by apply blank_trimStart.
  - intros H. by rewrite (trimStart_blank s H).
Qed.

Lemma truthy_trim s : truthy (trim s) = negb (blank s).
Proof.
  destruct (blank s) eqn:Hb.
  - apply trim_nil_iff in Hb. by rewrite Hb.
  - destruct (trim s) eqn:Ht; [|done].
    apply trim_nil_iff in Ht. congruence.
Qed.
End JSFacts.

(** ** Stepping lemmas *)

Lemma effects_quiet old new :
  userId old = userId new -> selectedUserRef old = selectedUserRef new ->
  effects old new = new.
Proof.
  intros Hu Hr. unfold effects.
  rewrite (bool_decide_eq_true_2 _ Hu), andb_false_r.
  by rewrite (bool_decide_eq_true_2 _ Hr), andb_false_r.
Qed.

Lemma step_settle w id o : step w (Settle id o) = effects w (settle id o w).
Proof. reflexivity. Qed.

Lemma settle_parked id o p k w :
  pending w !! id = Some p -> resume p o = Some k ->
  settle id o w = run k (unpark id w).
Proof. intros Hp Hk. unfold settle. by rewrite Hp, Hk. Qed.

Lemma settle_absent id o w : pending w !! id = None -> settle id o w = w.
Proof. intros Hp. unfold settle. by rewrite Hp. Qed.

Lemma effects_same w : effects w w = w.
Proof. by apply effects_quiet. Qed.

Lemma step_of_noop w e : dispatch w e = w -> step w e = w.
Proof. intros H. unfold step. rewrite H, effects_same. by destruct (enabled w e). Qed.

Lemma handleSend_valid v su :
  selectedUser v = Some su -> blank (newMessage v) = false ->
  handleSend v =
    (setSending true ;;
     AwaitSend (User.id su) (newMessage v) (sendViaWhatsApp v)
       (setNewMessage [] ;;
        await_ (fetchMessages (User.id su)) ;;
        notify (lit "Message sent") success ;;
        setSending false ;; Done)
       (notify (lit "Failed to send message") error ;;
        setSending false ;; Done))%async.
Proof.
  intros Hsu Hb. unfold handleSend. by rewrite truthy_trim, Hb, Hsu.
Qed.

Lemma effects_restart old new :
  userId old = userId new -> selectedUserRef new = S (selectedUserRef old) ->
  effects old new = if mounted new then startPolling (clearPolling new) else new.
Proof.
  intros Hu Hr. unfold effects.
  rewrite (bool_decide_eq_true_2 _ Hu), andb_false_r.
  rewrite bool_decide_eq_false_2 by lia. by rewrite andb_true_r.
Qed.

(** Resolve [step _ (Settle _ _)] on a world where [H] says what is parked
    under that request: resume it and run the effects of the render. *)
Ltac settle_here H :=
  rewrite step_settle;
  erewrite settle_parked; [| exact H | reflexivity];
  first [rewrite effects_quiet by (simpl; reflexivity)
        | rewrite effects_restart by (simpl; reflexivity)];
  simpl.

(** ** Failure of a conversation refresh *)

(** C5. A call of [fetchConversations] changes no state; it issues its
    request and is parked.  Whenever that request is later rejected, the
    whole React state, and with it [conversations], is left exactly as it
    is: the only thing added is the notification of the failure.  Where
    the call was awaited (the initial load), the failure adds the same
    notification and the awaiting code goes on from there. *)
Theorem refreshConversations_failure_keeps_state (w : World) :
  let w1 := run fetchConversations w in
  view w1 = view w /\
  notifications w1 = notifications w /\
  requests w1 = requests w ++ [getConversations 1 50 false] /\
  pending w1 !! next_req w = Some fetchConversations /\
  (forall wa ia,
    pending wa !! ia = Some fetchConversations ->
    step wa (Settle ia Rejected) =
      mkWorld (view wa) (userId wa) (mounted wa) (selectedUserRef wa)
        (interval wa) (timers wa) (next_timer wa) (delete ia (pending wa))
        (next_req wa) (requests wa)
        (notifications wa ++ [(lit "Failed to load conversations", error)])) /\
  (forall wa ia k,
     pending wa !! ia = Some (seq fetchConversations k) ->
     settle ia Rejected wa =
       run k
         (mkWorld (view wa) (userId wa) (mounted wa) (selectedUserRef wa)
            (interval wa) (timers wa) (next_timer wa) (delete ia (pending wa))
            (next_req wa) (requests wa)
            (notifications wa ++ [(lit "Failed to load conversations", error)]))).
Proof.
  cbv zeta. split_and!; try done.
  - apply lookup_insert_eq.
  - intros wa ia Hp. by settle_here Hp.
  - intros wa ia k Hp. by erewrite settle_parked; [| exact Hp | reflexivity].
Qed.

Lemma refreshConversations_failure_keeps_state_witness :
  let w1 := run fetchConversations Sample.opened in
  conversations (view (step w1 (Settle 4 Rejected))) =
    conversations (view Sample.opened) /\
  notifications (step w1 (Settle 4 Rejected)) =
    [(lit "Failed to load conversations", error)].
Proof.
  destruct (refreshConversations_failure_keeps_state Sample.opened)
    as (_ & _ & _ & Hp & H & _).
  cbv zeta. rewrite (H (run fetchConversations Sample.opened) 4%nat Hp).
  split; reflexivity.
Defined.

(** ** Local rejection of a send *)

(** C6. [handleSend] on a compose text that is empty or holds only white
    space returns at once: the whole state, request log and [sending]
    included, is unchanged, whether it is entered from the Enter key or
    from the send button. *)
Theorem blank_text_send_is_noop (w : World) :
  blank (newMessage (view w)) = true ->
  run (handleSend (view w)) w = w /\
  step w PressEnter = w /\ step w ClickSend = w.
Proof.
  intros Hb.
  assert (H : run (handleSend (view w)) w = w).
  { unfold handleSend. by rewrite truthy_trim, Hb. }
  split_and!; [done | by apply step_of_noop ..].
Qed.

Lemma blank_text_send_is_noop_witness :
  blank (newMessage (view Sample.blankDraft)) = true /\
  run (handleSend (view Sample.blankDraft)) Sample.blankDraft = Sample.blankDraft.
Proof.
  split; [reflexivity |].
  apply (blank_text_send_is_noop Sample.blankDraft). reflexivity.
Defined.

(** C10. With no conversation selected [handleSend] returns at once, whatever
    the compose text: no request is issued, [sending] is not set, nothing
    changes. *)
Theorem send_without_selection_is_noop (w : World) :
  selectedUser (view w) = None ->
  run (handleSend (view w)) w = w /\
  step w PressEnter = w /\ step w ClickSend = w.
Proof.
  intros Hs.
  assert (H : run (handleSend (view w)) w = w).
  { unfold handleSend. rewrite Hs. simpl. by rewrite orb_true_r. }
  split_and!; [done | by apply step_of_noop ..].
Qed.

Lemma send_without_selection_is_noop_witness :
  blank (newMessage (view Sample.noSelection)) = false /\
  run (handleSend (view Sample.noSelection)) Sample.noSelection = Sample.noSelection.
Proof.
  split; [reflexivity |].
  apply (send_without_selection_is_noop Sample.noSelection). reflexivity.
Defined.

(** C2, as stated, fails on [handleSend]: the function does not read
    [sending].  Entered a second time while the first post is in flight it
    posts the same text again. *)
Lemma handleSend_ignores_sending :
  sending (view Sample.midSend) = true /\
  requests (run (handleSend (view Sample.midSend)) Sample.midSend) =
    requests Sample.midSend ++ [sendMessage 1 (lit "Hello") true] /\
  run (handleSend (view Sample.midSend)) Sample.midSend <> Sample.midSend.
Proof.
  split_and!; [reflexivity | vm_compute; reflexivity |].
  intros H. apply (f_equal next_req) in H. vm_compute in H. discriminate.
Qed.

(** C2, amended. The guard against a second send is in the rendered page:
    while [sending] is true the send button and the text field are
    disabled, so neither a click nor the Enter key reaches [handleSend] and
    the state is unchanged. *)
Theorem send_controls_disabled_while_sending (w : World) :
  sending (view w) = true ->
  enabled w ClickSend = false /\ enabled w PressEnter = false /\
  step w ClickSend = w /\ step w PressEnter = w.
Proof.
  intros Hs.
  assert (H1 : enabled w ClickSend = false).
  { unfold enabled. rewrite Hs. simpl. apply andb_false_r. }
  assert (H2 : enabled w PressEnter = false).
  { unfold enabled. rewrite Hs. simpl. apply andb_false_r. }
  unfold step. by rewrite H1, H2.
Qed.

Lemma send_controls_disabled_while_sending_witness :
  step Sample.midSend ClickSend = Sample.midSend /\
  step Sample.midSend PressEnter = Sample.midSend.
Proof.
  apply (send_controls_disabled_while_sending Sample.midSend). reflexivity.
Defined.

(** ** Order of the requests of one thread load *)

(** The requests a process issues when run are its observed requests
    before any of its awaits settles. *)
Lemma run_requests p w : requests (run p w) = requests w ++ requested (observe p []).
Proof.
  revert w. induction p as [|a k IH|q IHq k IHk| | | | |]; intros w; simpl;
    try done.
  - by rewrite app_nil_r.
  - rewrite IH. unfold requested. simpl. by destruct a; simpl; rewrite ?app_nil_r.
  - rewrite IHk, IHq. unfold requested. by rewrite omap_app, app_assoc.
Qed.

(** When an await settles, the observation goes on with the code the
    component resumes, and the requests the component then issues are the
    ones observed. *)
Lemma observe_resume p o k rest :
  resume p o = Some k ->
  exists c, observe p [] = [Requested c] /\
    observe p (o :: rest) = Requested c :: observe k rest.
Proof.
  intros H. destruct p; try discriminate; destruct o as [|[]]; simplify_eq/=;
    eauto.
Qed.

Lemma settle_requests id o p k w :
  pending w !! id = Some p -> resume p o = Some k ->
  requests (settle id o w) = requests w ++ requested (observe k []).
Proof.
  intros Hp Hk. rewrite (settle_parked _ _ _ _ _ Hp Hk). by rewrite run_requests.
Qed.

(** The requests of one run of [fetchMessages], whatever its awaits settle
    with: the thread, then the mark-read when the thread came, then the
    conversations when the mark-read came. *)
Lemma fetchMessages_requests uid script :
  requested (observe (fetchMessages uid) script) =
    getMessages uid 1 100 ::
    (if thread_succeeded script
     then markAsRead uid ::
          match script with
          | _ :: Resolved _ :: _ => [getConversations 1 50 false]
          | _ => []
          end
     else []).
Proof.
  destruct script as [|[|[]] [|[|?] ?]]; reflexivity.
Qed.

(** C4. In every run of [fetchMessages uid]: a mark-read is requested only
    once the thread request has resolved, and comes after it; a refresh of
    the conversations is requested only after the mark-read; and a run
    whose thread request resolved requests exactly one mark-read, for
    [uid]. *)
Theorem fetchMessages_request_order (uid : Z) (script : list Outcome) :
  let cs := requested (observe (fetchMessages uid) script) in
  (forall pre post u,
     cs = pre ++ markAsRead u :: post ->
     u = uid /\ thread_succeeded script = true /\ In (getMessages uid 1 100) pre) /\
  (forall pre post c,
     cs = pre ++ c :: post -> is_getConversations c = true ->
     In (markAsRead uid) pre) /\
  (thread_succeeded script = true ->
     length (filter (fun c => is_markAsRead c = true) cs) = 1%nat).
Proof.
  cbv zeta. rewrite fetchMessages_requests.
  destruct (thread_succeeded script) eqn:Hok; split_and!.
  - intros pre post u H.
    destruct pre as [|? [|? [|? pre]]]; simplify_eq/=; auto.
    all: destruct script as [|? [|[] ?]]; simplify_eq/=; auto.
    all: try by destruct pre.
  - intros pre post c H Hc.
    destruct pre as [|? [|? [|? pre]]]; simplify_eq/=; auto.
    all: destruct script as [|? [|[] ?]]; simplify_eq/=; auto.
    all: try by destruct pre.
  - intros _. by destruct script as [|? [|[] ?]].
  - intros pre post u H. destruct pre as [|? [|? pre]]; simplify_eq/=.
  - intros pre post c H Hc. destruct pre as [|? [|? pre]]; simplify_eq/=.
  - done.
Qed.

Lemma fetchMessages_request_order_witness :
  length (filter (fun c => is_markAsRead c = true)
            (requested (observe (fetchMessages 1) [Sample.okA; Sample.ok]))) = 1%nat.
Proof.
  exact (proj2 (proj2 (fetchMessages_request_order 1 [Sample.okA; Sample.ok])) eq_refl).
Defined.

(** ** The parked processes keep their shape *)

Lemma seq_suspended p k : suspended p -> suspended (seq p k).
Proof. by destruct p. Qed.

Lemma seq_wf p k : wf p -> wf k -> wf (seq p k).
Proof.
  intros Hp Hk. revert p Hp.
  apply (wf_mut (fun p _ => wf (seq p k)) (fun d p _ => commits d (seq p k)));
    intros; simpl; try done; try by constructor.
  constructor; [by apply seq_suspended | done].
Qed.

Lemma fetchConversations_wf : wf fetchConversations.
Proof. repeat (constructor || intros || simpl). Qed.

Lemma fetchMessages_wf uid : wf (fetchMessages uid).
Proof.
  constructor; [intros d | by repeat constructor].
  constructor; [done |]. constructor; [|by repeat constructor].
  constructor; [apply fetchConversations_wf | constructor].
Qed.

Lemma handleSend_wf v : wf (handleSend v).
Proof.
  unfold handleSend.
  destruct (negb _ || negb _); [constructor|].
  destruct (selectedUser v); [|constructor].
  constructor; [done|]. constructor; [|by repeat constructor].
  constructor; [done|]. apply seq_wf; [apply fetchMessages_wf | by repeat constructor].
Qed.

Lemma handleToggleBot_wf v : wf (handleToggleBot v).
Proof.
  unfold handleToggleBot. destruct (selectedUser v); [|constructor].
  constructor; [intros d | by repeat constructor].
  constructor; [done|]. constructor; [apply fetchMessages_wf|].
  constructor; [apply fetchConversations_wf | constructor].
Qed.

Lemma init_wf r : wf (init r).
Proof.
  unfold init. constructor; [done|].
  apply seq_wf; [apply fetchConversations_wf|].
  destruct r; [|by repeat constructor].
  apply seq_wf; [apply fetchMessages_wf | by repeat constructor].
Qed.

Lemma pollCallback_wf su : wf (pollCallback su).
Proof.
  unfold pollCallback. constructor; [apply fetchConversations_wf|].
  destruct su; [|constructor].
  constructor; [apply fetchMessages_wf | constructor].
Qed.

Lemma onClickConversation_wf conv : wf (onClickConversation conv).
Proof.
  unfold onClickConversation. constructor; [done|].
  constructor; [apply fetchMessages_wf | constructor].
Qed.

Lemma apply_quiet_thread a w : quiet a -> thread (apply a w) = thread w.
Proof. by destruct a. Qed.

Lemma run_suspended_view p w : suspended p -> view (run p w) = view w.
Proof. by destruct p. Qed.

Lemma run_wf_thread p w : wf p -> thread (run p w) = thread w.
Proof.
  intros Hp. revert w.
  induction Hp as [|a k Ha _ IH|p k _ IHp _ IHk| | | | |]; intros w; simpl;
    try done.
  - by rewrite IH, apply_quiet_thread.
  - by rewrite IHk, IHp.
Qed.

Lemma suspend_parked_wf p c w :
  wf p -> parked_wf w -> parked_wf (suspend p c w).
Proof. intros Hp Hw. by apply map_Forall_insert_2. Qed.

Lemma apply_pending a w : pending (apply a w) = pending w.
Proof. by destruct a. Qed.

Lemma run_parked_wf p w : wf p -> parked_wf w -> parked_wf (run p w).
Proof.
  intros Hp. revert w.
  induction Hp as [|a k Ha _ IH|p k _ IHp _ IHk| | | | |]; intros w Hw; simpl;
    try done.
  - apply IH. unfold parked_wf. by rewrite apply_pending.
  - auto.
  - apply suspend_parked_wf; [by constructor | done].
  - apply suspend_parked_wf; [by constructor | done].
  - apply suspend_parked_wf; [by constructor | done].
  - apply suspend_parked_wf; [by constructor | done].
  - apply suspend_parked_wf; [by constructor | done].
Qed.

Lemma unpark_parked_wf id w : parked_wf w -> parked_wf (unpark id w).
Proof. intros Hw. by apply map_Forall_delete. Qed.

Lemma resume_wf p o k :
  wf p -> resume p o = Some k ->
  wf k \/ exists d, o = Resolved (RThread d) /\ commits d k.
Proof.
  intros Hp Hk.
  destruct Hp as [| | | | ? ? ? ? ? Hc| | |]; simpl in Hk;
    try discriminate.
  all: destruct o as [|[]]; simplify_eq; auto.
  right. eauto.
Qed.

Lemma run_commits d k w :
  commits d k ->
  thread (run k w) = (Some (ThreadPage.user d), ThreadPage.messages d) /\
  (parked_wf w -> parked_wf (run k w)).
Proof.
  intros Hc. destruct Hc as [d k Hs Hk]. simpl. split.
  - unfold thread. by rewrite (run_suspended_view k _ Hs).
  - intros Hw. apply run_parked_wf; [done|]. exact Hw.
Qed.

Lemma effects_thread old new :
  parked_wf new ->
  parked_wf (effects old new) /\ thread (effects old new) = thread new.
Proof.
  intros Hn. unfold effects.
  set (w1 := if mounted new && negb (bool_decide (userId old = userId new))
             then run (init (userId new)) new else new).
  assert (H1 : parked_wf w1 /\ thread w1 = thread new).
  { subst w1. destruct (_ && _); [|by split]. split.
    - apply run_parked_wf; [apply init_wf | done].
    - apply run_wf_thread, init_wf. }
  destruct H1 as [H1 H2]. clearbody w1.
  destruct (_ && _); (split; [exact H1 | exact H2]).
Qed.

(** One handler either leaves header and messages alone or is the arrival
    of a thread body, which it stores as a pair. *)
Lemma dispatch_thread w e :
  parked_wf w ->
  parked_wf (dispatch w e) /\
  (thread (dispatch w e) = thread w \/
   exists id d, e = Settle id (Resolved (RThread d)) /\
     thread (dispatch w e) = (Some (ThreadPage.user d), ThreadPage.messages d)).
Proof.
  intros Hw. destruct e; unfold dispatch.
  - split; [apply run_parked_wf; [apply fetchConversations_wf | done]|].
    left. apply run_wf_thread, fetchConversations_wf.
  - destruct (conversations (view w) !! i); [|by auto].
    split; [apply run_parked_wf; [apply onClickConversation_wf | done]|].
    left. apply run_wf_thread, onClickConversation_wf.
  - split; [apply run_parked_wf; [apply handleToggleBot_wf | done]|].
    left. apply run_wf_thread, handleToggleBot_wf.
  - by auto.
  - by auto.
  - split; [apply run_parked_wf; [apply handleSend_wf | done]|].
    left. apply run_wf_thread, handleSend_wf.
  - split; [apply run_parked_wf; [apply handleSend_wf | done]|].
    left. apply run_wf_thread, handleSend_wf.
  - unfold settle. destruct (pending w !! id) as [p|] eqn:Hp; [|by auto].
    destruct (resume p o) as [k|] eqn:Hk; [|by auto].
    apply Hw in Hp. destruct (resume_wf _ _ _ Hp Hk) as [Hwf|(d & -> & Hc)].
    + split; [apply run_parked_wf; [done | by apply unpark_parked_wf]|].
      left. by rewrite run_wf_thread.
    + destruct (run_commits d k (unpark id w) Hc) as [Ht Hpk].
      split; [by apply Hpk, unpark_parked_wf|]. right. eauto.
  - destruct (timers w !! t); [|by auto].
    split; [apply run_parked_wf; [apply pollCallback_wf | done]|].
    left. apply run_wf_thread, pollCallback_wf.
  - by auto.
Qed.

Lemma step_thread w e :
  parked_wf w ->
  parked_wf (step w e) /\
  (thread (step w e) = thread w \/
   exists id d, e = Settle id (Resolved (RThread d)) /\
     thread (step w e) = (Some (ThreadPage.user d), ThreadPage.messages d)).
Proof.
  intros Hw. unfold step. destruct (enabled w e); [|by auto].
  destruct (dispatch_thread w e Hw) as [Hd Ht].
  destruct (effects_thread w _ Hd) as [He Hte].
  split; [done|]. rewrite Hte. exact Ht.
Qed.

Lemma mount_parked_wf route : parked_wf (mount route).
Proof.
  change (parked_wf (run (init route)
            (mkWorld initialView route true 0 None ∅ 0 ∅ 0 [] []))).
  apply run_parked_wf; [apply init_wf|]. apply map_Forall_empty.
Qed.

Lemma steps_snoc w es e : steps w (es ++ [e]) = step (steps w es) e.
Proof. unfold steps. by rewrite fold_left_app. Qed.

Lemma reachable_parked_wf w : reachable w -> parked_wf w.
Proof.
  intros (route & es & ->). induction es as [|e es IH] using rev_ind.
  - apply mount_parked_wf.
  - rewrite steps_snoc. by apply step_thread.
Qed.

(** ** Arrival of a thread body *)

(** C1, as stated, fails. In [Sample.staleRun] the admin re-clicks Alice and
    then clicks Bob while Alice's thread request (number 4) is in flight;
    that request resolves after everything for Bob has.  When it arrives
    the route is Bob's, and it is committed all the same: once no request
    is left, header and messages are Alice's, not Bob's. *)
Lemma stale_thread_response_is_committed :
  Sample.staleRun = steps (mount (Some 1)) Sample.staleTrace /\
  Sample.staleRun =
    steps Sample.beforeStale [Settle 4 Sample.okA; Settle 12 Sample.ok; Settle 13 Sample.okConvs] /\
  userId Sample.beforeStale = Some (User.id Sample.bob) /\
  thread Sample.beforeStale = (Some Sample.bob, [Sample.msgB]) /\
  (exists kOk kErr,
     pending Sample.beforeStale !! 4%nat =
       Some (AwaitMessages (User.id Sample.alice) 1 100 kOk kErr)) /\
  pending Sample.staleRun = ∅ /\
  userId Sample.staleRun = Some (User.id Sample.bob) /\
  thread Sample.staleRun = (Some Sample.alice, [Sample.msgA]) /\
  thread Sample.staleRun <> (Some Sample.bob, [Sample.msgB]).
Proof.
  split_and!; try (vm_compute; reflexivity).
  - do 2 eexists. vm_compute. reflexivity.
  - vm_compute. discriminate.
Qed.

(** C1, amended. A thread body is committed when it arrives, with no look
    at the current selection: in every reachable state, whichever thread
    request settles with a body, header and messages become the user and
    the messages of that body.  So after both fetches have resolved the
    page shows the data of the one that resolved last. *)
Theorem thread_response_commits_on_arrival
    (w : World) (id : nat) (u pg pp : Z) kOk kErr (d : ThreadPage.t) :
  reachable w ->
  pending w !! id = Some (AwaitMessages u pg pp kOk kErr) ->
  thread (step w (Settle id (Resolved (RThread d)))) =
    (Some (ThreadPage.user d), ThreadPage.messages d).
Proof.
  intros Hw%reachable_parked_wf Hp.
  assert (Hwf := Hw _ _ Hp). inversion Hwf as [| | | |? ? ? ? ? Hc _| | |]; subst.
  rewrite step_settle, (settle_parked id (Resolved (RThread d)) _ (kOk d) w Hp eq_refl).
  destruct (run_commits d (kOk d) (unpark id w) (Hc d)) as [Ht Hpk].
  destruct (effects_thread w (run (kOk d) (unpark id w))) as [_ He].
  { by apply Hpk, unpark_parked_wf. }
  by rewrite He.
Qed.

Lemma thread_response_commits_on_arrival_witness :
  thread (step Sample.beforeStale (Settle 4 (Resolved (RThread Sample.threadA)))) =
    (Some Sample.alice, [Sample.msgA]).
Proof.
  eapply (thread_response_commits_on_arrival Sample.beforeStale 4 1 1 100 _ _
            Sample.threadA).
  - exists (Some 1), (Sample.openedTrace ++
      [ClickConversation 0; ClickConversation 1;
       Settle 5 Sample.okB; Settle 6 Sample.okConvs; Settle 8 Sample.okB;
       Settle 7 Sample.ok; Settle 9 Sample.ok;
       Settle 10 Sample.okConvs; Settle 11 Sample.okConvs]).
    vm_compute. reflexivity.
  - vm_compute. reflexivity.
Defined.

(** ** Header and messages come from one body *)

Lemma delivered_snoc es e d : delivered es d -> delivered (es ++ [e]) d.
Proof. intros [id H]. exists id. apply elem_of_app. by left. Qed.

Lemma thread_from_one_response route es :
  thread (steps (mount route) es) = (None, []) \/
  exists d, delivered es d /\
    thread (steps (mount route) es) = (Some (ThreadPage.user d), ThreadPage.messages d).
Proof.
  induction es as [|e es IH] using rev_ind.
  - left. unfold steps; simpl.
    change (thread (mount route)) with
      (thread (run (init route) (mkWorld initialView route true 0 None ∅ 0 ∅ 0 [] []))).
    by rewrite run_wf_thread by apply init_wf.
  - rewrite steps_snoc.
    destruct (step_thread (steps (mount route) es) e) as [_ [Hs|(id & d & -> & Hs)]].
    + apply reachable_parked_wf. by eexists _, _.
    + rewrite Hs. destruct IH as [IH|(d & Hd & IH)]; [by left|].
      right. exists d. split; [by apply delivered_snoc | done].
    + right. exists d. split; [|done]. exists id. apply elem_of_app. right.
      by apply list_elem_of_singleton.
Qed.

(** C3, as stated, fails.  The page stores what a thread body holds and
    compares no [user_id] with the header.  In [Sample.mixedRun] the page
    is opened at [/chat/1]; its thread request (number 1) resolves with a
    body that names Alice and carries a message of Bob.  The load
    succeeds, both are committed, and the page shows under Alice's header
    a message whose [user_id] is not hers. *)
Lemma foreign_message_under_header :
  Sample.mixedRun = steps (mount (Some 1)) Sample.mixedTrace /\
  (exists kOk kErr,
     pending (steps (mount (Some 1)) [Settle 0 Sample.okConvs]) !! 1%nat =
       Some (AwaitMessages (User.id Sample.alice) 1 100 kOk kErr)) /\
  selectedUser (view Sample.mixedRun) = Some Sample.alice /\
  messages (view Sample.mixedRun) = [Sample.msgB] /\
  Message.user_id Sample.msgB <> User.id Sample.alice /\
  ~ (forall su m,
       selectedUser (view Sample.mixedRun) = Some su ->
       m ∈ messages (view Sample.mixedRun) ->
       Message.user_id m = User.id su).
Proof.
  split_and!; try (vm_compute; reflexivity).
  - do 2 eexists. vm_compute. reflexivity.
  - vm_compute. discriminate.
  - intros H. specialize (H Sample.alice Sample.msgB eq_refl).
    assert (Hin : Sample.msgB ∈ messages (view Sample.mixedRun))
      by (vm_compute; left).
    specialize (H Hin). vm_compute in H. discriminate.
Qed.

(** C3, amended.  A thread load requests the thread and waits, header and
    messages untouched.  When the body arrives, in a reachable state, the
    step that takes it sets [selectedUser] and [messages] both from that
    body: no state lies between the two updates.  In every reachable state
    the two are either both as at the start or the user and the messages
    of one and the same delivered body, and every step either leaves both
    or replaces both with those of the body that arrives in it.  So a
    message shown under a header was delivered in one body with the user
    in that header: it belongs to another user only if the backend itself
    paired the two in that body, and to the user in the header whenever
    that body holds the messages of its user. *)
Theorem header_and_messages_agree (route : option Z) (es : list Event) :
  let w := steps (mount route) es in
  (forall uid w0,
     let w1 := run (fetchMessages uid) w0 in
     thread w1 = thread w0 /\
     requests w1 = requests w0 ++ [getMessages uid 1 100] /\
     pending w1 !! next_req w0 = Some (fetchMessages uid)) /\
  (forall id u pg pp kOk kErr d,
     pending w !! id = Some (AwaitMessages u pg pp kOk kErr) ->
     let w' := step w (Settle id (Resolved (RThread d))) in
     selectedUser (view w') = Some (ThreadPage.user d) /\
     messages (view w') = ThreadPage.messages d) /\
  (thread w = (None, []) \/
   exists d, delivered es d /\
     selectedUser (view w) = Some (ThreadPage.user d) /\
     messages (view w) = ThreadPage.messages d) /\
  (forall e,
     let w' := step w e in
     thread w' = thread w \/
     exists id d, e = Settle id (Resolved (RThread d)) /\
       selectedUser (view w') = Some (ThreadPage.user d) /\
       messages (view w') = ThreadPage.messages d) /\
  (forall su m,
     selectedUser (view w) = Some su -> m ∈ messages (view w) ->
     exists d, delivered es d /\
       ThreadPage.user d = su /\ m ∈ ThreadPage.messages d /\
       (thread_of_its_user d -> Message.user_id m = User.id su)).
Proof.
  cbv zeta.
  assert (Hw : parked_wf (steps (mount route) es))
    by (apply reachable_parked_wf; by eexists _, _).
  split_and!.
  - intros uid w0. split_and!.
    + apply run_wf_thread, fetchMessages_wf.
    + rewrite run_requests. f_equal.
    + simpl. apply lookup_insert_eq.
  - intros id u pg pp kOk kErr d Hp.
    assert (Hwf := Hw _ _ Hp).
    inversion Hwf as [| | | |? ? ? ? ? Hc _| | |]; subst.
    rewrite step_settle,
      (settle_parked id (Resolved (RThread d)) _ (kOk d) _ Hp eq_refl).
    destruct (run_commits d (kOk d) (unpark id (steps (mount route) es)) (Hc d))
      as [Ht Hpk].
    destruct (effects_thread (steps (mount route) es)
                (run (kOk d) (unpark id (steps (mount route) es)))) as [_ He].
    { by apply Hpk, unpark_parked_wf. }
    rewrite Ht in He. unfold thread in He. by injection He.
  - destruct (thread_from_one_response route es) as [H|(d & Hd & H)];
      [by left|].
    right. exists d. unfold thread in H. by injection H.
  - intros e. destruct (step_thread _ e Hw) as [_ [H|(id & d & -> & H)]];
      [by left|].
    right. exists id, d. unfold thread in H. by injection H.
  - intros su m Hsu Hin.
    destruct (thread_from_one_response route es) as [H|(d & Hd & H)];
      unfold thread in H; [congruence|].
    injection H as Hu Hm. rewrite Hu in Hsu. injection Hsu as <-.
    rewrite Hm in Hin. exists d. split_and!; try done.
    intros Hc. unfold thread_of_its_user in Hc. rewrite Forall_forall in Hc.
    by apply Hc.
Qed.

Lemma header_and_messages_agree_witness :
  Message.user_id Sample.msgA = User.id Sample.alice /\
  (let w' := step (steps (mount (Some 1)) [Settle 0 Sample.okConvs])
               (Settle 1 (Resolved (RThread Sample.threadA))) in
   selectedUser (view w') = Some (ThreadPage.user Sample.threadA) /\
   messages (view w') = ThreadPage.messages Sample.threadA).
Proof.
  split.
  - destruct (header_and_messages_agree (Some 1) Sample.openedTrace)
      as (_ & _ & _ & _ & H).
    destruct (H Sample.alice Sample.msgA) as (d & [id Hin] & _ & _ & Hd).
    + vm_compute. reflexivity.
    + vm_compute. left.
    + apply Hd. unfold Sample.openedTrace in Hin.
      repeat (apply elem_of_cons in Hin as [Hin|Hin]; [try discriminate|]).
      * injection Hin as _ ->. repeat constructor.
      * by apply elem_of_nil in Hin.
  - destruct (header_and_messages_agree (Some 1) [Settle 0 Sample.okConvs])
      as (_ & H & _).
    eapply (H 1%nat 1 1 100 _ _ Sample.threadA).
    vm_compute. reflexivity.
Defined.

(** Header and messages change in no other way than by the arrival of a
    thread body: no handler of the page inserts a message on its own. *)
Lemma thread_changes_only_on_arrival (w : World) (e : Event) :
  reachable w ->
  thread (step w e) <> thread w ->
  exists id d, e = Settle id (Resolved (RThread d)) /\
    thread (step w e) = (Some (ThreadPage.user d), ThreadPage.messages d).
Proof.
  intros Hw%reachable_parked_wf Hne.
  by destruct (step_thread w e Hw) as [_ [?|?]].
Qed.

(** ** A send that passed the local checks *)



(** C8. When the post resolves, the compose text is cleared and the thread
    of the user the message went to is requested again.  Neither the call
    of [handleSend] nor the arrival of the post's answer touches the
    header or the messages; the reload's body, when it arrives, is what is
    committed.  No step of the page changes header or messages in any
    other way than by committing a thread body of the backend. *)
Theorem handleSend_success_reloads_thread (w : World) (su : User.t) :
  selectedUser (view w) = Some su ->
  blank (newMessage (view w)) = false ->
  let w1 := run (handleSend (view w)) w in
  (thread w1 = thread w /\
   requests w1 =
     requests w ++
     [sendMessage (User.id su) (newMessage (view w)) (sendViaWhatsApp (view w))] /\
   exists p1, pending w1 !! next_req w = Some p1 /\
   forall wa ia r,
     pending wa !! ia = Some p1 ->
     let w2 := step wa (Settle ia (Resolved r)) in
     newMessage (view w2) = [] /\
     thread w2 = thread wa /\
     requests w2 = requests wa ++ [getMessages (User.id su) 1 100] /\
     exists p2, pending w2 !! next_req wa = Some p2 /\
     forall wb ib d,
       pending wb !! ib = Some p2 ->
       thread (step wb (Settle ib (Resolved (RThread d)))) =
         (Some (ThreadPage.user d), ThreadPage.messages d)) /\
  (forall w0 e,
     reachable w0 -> thread (step w0 e) <> thread w0 ->
     exists id d, e = Settle id (Resolved (RThread d)) /\
       thread (step w0 e) = (Some (ThreadPage.user d), ThreadPage.messages d)).
Proof.
  intros Hsu Hb. rewrite (handleSend_valid _ _ Hsu Hb). cbv zeta. split.
  - split; [done|]. split; [done|].
    eexists. split; [apply lookup_insert_eq|].
    intros wa ia r Ha. settle_here Ha. split_and!; try done.
    eexists. split; [apply lookup_insert_eq|].
    intros wb ib d Hrl. settle_here Hrl. by destruct (mounted wb).
  - intros w0 e Hw%reachable_parked_wf Hne.
    by destruct (step_thread w0 e Hw) as [_ [?|?]].
Qed.

Lemma handleSend_success_reloads_thread_witness :
  let w := Sample.drafted in
  let w1 := run (handleSend (view w)) w in
  let w2 := step w1 (Settle (next_req w) Sample.ok) in
  newMessage (view w2) = [] /\ thread w2 = thread w1.
Proof.
  destruct (handleSend_success_reloads_thread Sample.drafted Sample.alice
              eq_refl eq_refl) as ((_ & _ & p1 & Hp1 & H) & _).
  destruct (H _ _ RJson Hp1) as (H1 & H2 & _).
  exact (conj H1 H2).
Defined.

(** ** The polling interval *)

Lemma apply_polling a w : polling (apply a w) = polling w.
Proof. by destruct a. Qed.

Lemma run_polling p w : polling (run p w) = polling w.
Proof.
  revert w. induction p as [|a k IH|q IHq k IHk| | | | |]; intros w; simpl;
    try done.
  - by rewrite IH, apply_polling.
  - by rewrite IHk, IHq.
Qed.

Lemma settle_polling id o w : polling (settle id o w) = polling w.
Proof.
  unfold settle. destruct (pending w !! id); [|done].
  destruct (resume _ o); [|done]. by rewrite run_polling.
Qed.

Lemma dispatch_polling w e :
  e <> Unmount -> polling (dispatch w e) = polling w.
Proof.
  intros He. destruct e; unfold dispatch; try done;
    try apply run_polling; try apply settle_polling.
  - destruct (_ !! i); [apply run_polling | done].
  - destruct (_ !! t); [apply run_polling | done].
Qed.

Lemma effects_polling old new :
  polling (effects old new) = polling new \/
  mounted new = true /\
  polling (effects old new) =
    (true, Some (next_timer new),
     <[next_timer new := selectedUser (view (effects old new))]>
       (cleared (interval new) (timers new)),
     S (next_timer new)).
Proof.
  unfold effects.
  set (w1 := if mounted new && negb (bool_decide (userId old = userId new))
             then run (init (userId new)) new else new).
  assert (H1 : polling w1 = polling new).
  { subst w1. destruct (_ && _); [apply run_polling | done]. }
  clearbody w1. destruct (mounted w1) eqn:Hm; simpl; [|by left].
  destruct (negb _); [|by left]. right.
  unfold polling in H1. injection H1 as Ha Hb Hc Hd.
  split; [congruence|].
  unfold polling, startPolling, clearPolling, cleared; simpl.
  by rewrite Hm, Hb, Hc, Hd.
Qed.

(** A step leaves the polling fields alone, or restarts the interval, or is
    the unmount. *)
Lemma step_polling w e :
  polling (step w e) = polling w \/
  (mounted w = true /\ exists su,
     polling (step w e) =
       (true, Some (next_timer w),
        <[next_timer w := su]> (cleared (interval w) (timers w)),
        S (next_timer w))) \/
  (mounted w = true /\
   polling (step w e) = (false, None, cleared (interval w) (timers w), next_timer w)).
Proof.
  unfold step. destruct (enabled w e) eqn:Hen; [|by left].
  assert (e = Unmount \/ e <> Unmount) as [->|Hne]
    by (destruct e; (by left) || (by right)).
  - right; right. simpl in Hen. split; [done|].
    unfold effects, dispatch. simpl. reflexivity.
  - pose proof (dispatch_polling w e Hne) as Hd.
    destruct (effects_polling w (dispatch w e)) as [He|[Hm He]].
    + left. congruence.
    + right; left. unfold polling in Hd. injection Hd as Ha Hb Hc Hd.
      split; [congruence|]. eexists. rewrite He. by rewrite Hb, Hc, Hd.
Qed.

Lemma polling_fields w m iv tm nt :
  polling w = (m, iv, tm, nt) ->
  mounted w = m /\ interval w = iv /\ timers w = tm /\ next_timer w = nt.
Proof. unfold polling. intros H. by injection H. Qed.

Lemma cleared_lookup iv (tm : gmap nat (option User.t)) t :
  (forall t', is_Some (tm !! t') -> iv = Some t') ->
  cleared iv tm !! t = None.
Proof.
  intros H. destruct (cleared iv tm !! t) as [x|] eqn:Hx; [|done].
  unfold cleared in Hx. destruct iv as [t0|].
  - destruct (decide (t0 = t)) as [->|Hne].
    + by rewrite lookup_delete_eq in Hx.
    + rewrite lookup_delete_ne in Hx by done.
      specialize (H t (mk_is_Some _ _ Hx)). congruence.
  - by specialize (H t (mk_is_Some _ _ Hx)).
Qed.

Lemma step_timers_inv w e : timers_inv w -> timers_inv (step w e).
Proof.
  intros (Hlive & Hlt & Hun).
  destruct (step_polling w e) as [H|[[Hm [su H]]|[Hm H]]];
    apply polling_fields in H as (Em & Ei & Et & En);
    unfold timers_inv; rewrite Em, Ei, Et, En.
  - done.
  - split_and!.
    + intros t [x Hx]. destruct (decide (next_timer w = t)) as [->|Hne]; [done|].
      rewrite lookup_insert_ne in Hx by done.
      by rewrite cleared_lookup in Hx.
    + intros t [= <-]. lia.
    + done.
  - split_and!; [|done|done].
    intros t [x Hx]. by rewrite cleared_lookup in Hx.
Qed.

Lemma step_torn_down t w e :
  timers_inv w -> torn_down t w -> torn_down t (step w e).
Proof.
  intros (Hlive & Hlt & Hun) [Ht Hi].
  destruct (step_polling w e) as [H|[[Hm [su H]]|[Hm H]]];
    apply polling_fields in H as (Em & Ei & Et & En);
    unfold torn_down; rewrite Ei, En.
  - done.
  - split; [lia|]. intros [= ?]. lia.
  - done.
Qed.

Lemma step_unmounted w e : mounted w = false -> mounted (step w e) = false.
Proof.
  intros Hm.
  destruct (step_polling w e) as [H|[[Hm' _]|[Hm' _]]]; [|congruence..].
  apply polling_fields in H as (Em & _). congruence.
Qed.

Lemma mount_timers_inv route : timers_inv (mount route).
Proof.
  assert (H : polling (mount route) = (true, Some 0%nat, <[0%nat := None]> ∅, 1%nat)).
  { unfold mount.
    set (w0 := mkWorld initialView route true 0 None ∅ 0 ∅ 0 [] []).
    pose proof (run_polling (init route) w0) as H.
    apply polling_fields in H as (Em & Ei & Et & En).
    pose proof (run_wf_thread (init route) w0 (init_wf route)) as Hth.
    assert (Hsu : selectedUser (view (run (init route) w0)) = None)
      by exact (f_equal fst Hth).
    unfold polling, startPolling. cbn [mounted interval timers next_timer].
    by rewrite Em, Et, En, Hsu. }
  apply polling_fields in H as (Em & Ei & Et & En).
  unfold timers_inv. rewrite Em, Ei, Et, En. split_and!.
  - intros t [x Hx]. destruct (decide (t = 0%nat)) as [->|Hne]; [done|].
    rewrite lookup_insert_ne in Hx by done. by rewrite lookup_empty in Hx.
  - intros t [= <-]. lia.
  - done.
Qed.

Lemma steps_timers_inv w es : timers_inv w -> timers_inv (steps w es).
Proof.
  intros Hw. induction es as [|e es IH] using rev_ind; [done|].
  rewrite steps_snoc. by apply step_timers_inv.
Qed.

Lemma steps_torn_down t w es :
  timers_inv w -> torn_down t w -> torn_down t (steps w es).
Proof.
  intros Hw Ht. induction es as [|e es IH] using rev_ind; [done|].
  rewrite steps_snoc. apply step_torn_down; [by apply steps_timers_inv | done].
Qed.

Lemma steps_unmounted w es : mounted w = false -> mounted (steps w es) = false.
Proof.
  intros Hw. induction es as [|e es IH] using rev_ind; [done|].
  rewrite steps_snoc. by apply step_unmounted.
Qed.

Lemma tick_of_dead_timer w t : timers w !! t = None -> step w (Tick t) = w.
Proof. intros H. apply step_of_noop. unfold dispatch. by rewrite H. Qed.

Lemma torn_down_not_live t w :
  timers_inv w -> torn_down t w -> timers w !! t = None.
Proof.
  intros (Hlive & _ & _) [_ Hi].
  destruct (timers w !! t) as [x|] eqn:Hx; [|done].
  destruct Hi. apply Hlive. by eexists.
Qed.

(** C9. Once the interval [t] of the polling effect has been torn down, by
    the cleanup that precedes a new setup or by unmounting, it is never
    live again: whatever happens afterwards, a tick of [t] runs no callback
    and changes nothing, so it issues no request.  After unmounting this
    holds of every interval. *)
Theorem stopped_interval_never_fires
    (route : option Z) (es1 : list Event) (t : nat) :
  let w := steps (mount route) es1 in
  interval w = Some t ->
  (forall e es2,
     interval (step w e) <> Some t ->
     let w' := steps (step w e) es2 in
     timers w' !! t = None /\ step w' (Tick t) = w') /\
  (mounted w = true ->
   interval (step w Unmount) = None /\
   forall es2 t',
     let w' := steps (step w Unmount) es2 in
     timers w' !! t' = None /\ step w' (Tick t') = w').
Proof.
  intros w Hi.
  assert (Hw : timers_inv w) by apply steps_timers_inv, mount_timers_inv.
  split.
  - intros e es2 Hne w'.
    assert (Hd : torn_down t (step w e)).
    { split; [|done]. destruct Hw as (_ & Hlt & _). specialize (Hlt t Hi).
      destruct (step_polling w e) as [H|[[Hm [su H]]|[Hm H]]];
        apply polling_fields in H as (_ & _ & _ & ->); lia. }
    assert (Hn : timers w' !! t = None).
    { apply torn_down_not_live.
      - by apply steps_timers_inv, step_timers_inv.
      - apply steps_torn_down; [by apply step_timers_inv | done]. }
    split; [done | by apply tick_of_dead_timer].
  - intros Hm.
    assert (Hu : mounted (step w Unmount) = false /\ interval (step w Unmount) = None).
    { unfold step. simpl. rewrite Hm. unfold effects, dispatch. simpl. done. }
    destruct Hu as [Hu1 Hu2]. split; [done|].
    intros es2 t' w'.
    assert (Hinv : timers_inv w') by by apply steps_timers_inv, step_timers_inv.
    assert (Hm' : mounted w' = false) by by apply steps_unmounted.
    assert (Hn : timers w' !! t' = None).
    { destruct Hinv as (Hlive & _ & Hun).
      destruct (timers w' !! t') as [x|] eqn:Hx; [|done].
      specialize (Hlive t' (mk_is_Some _ _ Hx)). rewrite (Hun Hm') in Hlive.
      discriminate. }
    split; [done | by apply tick_of_dead_timer].
Qed.

Lemma stopped_interval_never_fires_witness :
  let w' := steps (step (steps (mount (Some 1)) Sample.unmountTrace) Unmount)
              [Settle 5 Sample.okA; Settle 6 Sample.ok] in
  timers w' !! 1%nat = None /\ step w' (Tick 1) = w'.
Proof.
  assert (Hi : interval (steps (mount (Some 1)) Sample.unmountTrace) = Some 1%nat)
    by (vm_compute; reflexivity).
  destruct (stopped_interval_never_fires (Some 1) Sample.unmountTrace 1 Hi)
    as [H _].
  apply (H Unmount [Settle 5 Sample.okA; Settle 6 Sample.ok]).
  vm_compute. discriminate.
Defined.

(** * Further properties of the chat page *)

(** ** Failures of a thread load *)

(** X1. A call of [fetchMessages] changes no state.  Whenever its thread
    request is rejected, the React state is left as it is, no mark-read
    and no refresh is requested, and the only thing added is the
    notification. *)
Theorem fetchMessages_failure_keeps_state (uid : Z) (w : World) :
  let w1 := run (fetchMessages uid) w in
  view w1 = view w /\
  notifications w1 = notifications w /\
  requests w1 = requests w ++ [getMessages uid 1 100] /\
  pending w1 !! next_req w = Some (fetchMessages uid) /\
  forall wa ia,
    pending wa !! ia = Some (fetchMessages uid) ->
    step wa (Settle ia Rejected) =
      mkWorld (view wa) (userId wa) (mounted wa) (selectedUserRef wa)
        (interval wa) (timers wa) (next_timer wa) (delete ia (pending wa))
        (next_req wa) (requests wa)
        (notifications wa ++ [(lit "Failed to load messages", error)]).
Proof.
  cbv zeta. split_and!; try done.
  - apply lookup_insert_eq.
  - intros wa ia Hp. by settle_here Hp.
Qed.

Lemma fetchMessages_failure_keeps_state_witness :
  let w1 := run (fetchMessages 2) Sample.opened in
  thread (step w1 (Settle 4 Rejected)) = (Some Sample.alice, [Sample.msgA]) /\
  notifications (step w1 (Settle 4 Rejected)) =
    [(lit "Failed to load messages", error)].
Proof.
  destruct (fetchMessages_failure_keeps_state 2 Sample.opened)
    as (_ & _ & _ & Hp & H).
  cbv zeta. rewrite (H (run (fetchMessages 2) Sample.opened) 4%nat Hp).
  split; reflexivity.
Defined.

(** X2. When the thread of a load has arrived, it is committed and exactly
    one mark-read for the requested id is issued, whatever user the body
    names.  If that mark-read is rejected, the committed thread stays, the
    conversations are not refreshed, and the failure is reported with the
    text of a failed load; if it resolves, the conversations are requested
    and nothing is notified. *)
Theorem markAsRead_failure_after_commit (uid : Z) (wa : World) (ia : nat)
    (d : ThreadPage.t) :
  pending wa !! ia = Some (fetchMessages uid) ->
  let w2 := step wa (Settle ia (Resolved (RThread d))) in
  thread w2 = (Some (ThreadPage.user d), ThreadPage.messages d) /\
  requests w2 = requests wa ++ [markAsRead uid] /\
  notifications w2 = notifications wa /\
  exists p, pending w2 !! next_req wa = Some p /\
    forall wb ib,
      pending wb !! ib = Some p ->
      (let w3 := step wb (Settle ib Rejected) in
       view w3 = view wb /\ requests w3 = requests wb /\
       notifications w3 =
         notifications wb ++ [(lit "Failed to load messages", error)]) /\
      (forall r,
         let w3 := step wb (Settle ib (Resolved r)) in
         view w3 = view wb /\
         requests w3 = requests wb ++ [getConversations 1 50 false] /\
         notifications w3 = notifications wb).
Proof.
  intros Ha. cbv zeta.
  assert (Hs : step wa (Settle ia (Resolved (RThread d))) =
    (let new := run (setSelectedUser (ThreadPage.user d) ;;
                     setMessages (ThreadPage.messages d) ;;
                     AwaitMarkRead uid (call fetchConversations ;; Done)
                       (notify (lit "Failed to load messages") error ;; Done))%async
                  (unpark ia wa) in
     if mounted wa then startPolling (clearPolling new) else new)).
  { rewrite step_settle. erewrite settle_parked; [| exact Ha | reflexivity].
    by rewrite effects_restart by (simpl; reflexivity). }
  rewrite Hs. cbv zeta.
  split_and!; try by destruct (mounted wa).
  eexists. split; [destruct (mounted wa); apply lookup_insert_eq|].
  intros wb ib Hb. split.
  - by settle_here Hb.
  - intros r. by settle_here Hb.
Qed.

Lemma markAsRead_failure_after_commit_witness :
  let wa := run (fetchMessages 2) Sample.opened in
  thread (step wa (Settle 4 Sample.okB)) = (Some Sample.bob, [Sample.msgB]) /\
  requests (step wa (Settle 4 Sample.okB)) = requests wa ++ [markAsRead 2].
Proof.
  assert (Hp : pending (run (fetchMessages 2) Sample.opened) !! 4%nat =
               Some (fetchMessages 2)) by (vm_compute; reflexivity).
  destruct (markAsRead_failure_after_commit 2 _ 4 Sample.threadB Hp)
    as (H1 & H2 & _).
  exact (conj H1 H2).
Defined.

(** ** Toggling the bot *)

(** X3. [handleToggleBot] does nothing without a selected user.  With one,
    it posts the toggle for that user and changes no state.  A rejected
    toggle only notifies.  A resolved toggle shows the backend's message
    and requests the thread of that user and then the conversations; the
    header is not flipped on the spot, it changes when the reload
    arrives. *)
Theorem handleToggleBot_behaviour (w : World) :
  (selectedUser (view w) = None -> run (handleToggleBot (view w)) w = w) /\
  (forall su,
     selectedUser (view w) = Some su ->
     let w1 := run (handleToggleBot (view w)) w in
     view w1 = view w /\
     notifications w1 = notifications w /\
     requests w1 = requests w ++ [toggleBotStatus (User.id su)] /\
     exists p, pending w1 !! next_req w = Some p /\
       forall wa ia,
         pending wa !! ia = Some p ->
         (let w2 := step wa (Settle ia Rejected) in
          view w2 = view wa /\ requests w2 = requests wa /\
          notifications w2 =
            notifications wa ++ [(lit "Failed to toggle bot status", error)]) /\
         (forall res,
            let w2 := step wa (Settle ia (Resolved (RToggle res))) in
            view w2 = view wa /\
            notifications w2 =
              notifications wa ++ [(ToggleResult.message res, success)] /\
            requests w2 =
              requests wa ++
              [getMessages (User.id su) 1 100; getConversations 1 50 false])).
Proof.
  split.
  - intros Hs. unfold handleToggleBot. by rewrite Hs.
  - intros su Hs. unfold handleToggleBot. rewrite Hs. cbv zeta.
    split_and!; try done.
    eexists. split; [apply lookup_insert_eq|].
    intros wa ia Ha. split.
    + by settle_here Ha.
    + intros res. settle_here Ha. split_and!; try done.
      by rewrite <- app_assoc.
Qed.

Lemma handleToggleBot_behaviour_witness :
  let w1 := run (handleToggleBot (view Sample.opened)) Sample.opened in
  requests w1 = requests Sample.opened ++ [toggleBotStatus 1] /\
  view w1 = view Sample.opened.
Proof.
  destruct (proj2 (handleToggleBot_behaviour Sample.opened) Sample.alice eq_refl)
    as (H1 & _ & H2 & _).
  exact (conj H2 H1).
Defined.

(** ** The initial load *)

(** X4. The initial load shows the spinner and requests the conversations.
    Whether that request resolves or is rejected, the load goes on: with no
    user in the route it clears the spinner at once and requests nothing
    more; with a user it requests that user's thread, and the spinner is
    cleared when the thread request is rejected or, after a thread arrived,
    when the mark-read has settled either way. *)
Theorem init_behaviour (route : option Z) (w : World) :
  let w1 := run (init route) w in
  loading (view w1) = true /\
  requests w1 = requests w ++ [getConversations 1 50 false] /\
  exists p1, pending w1 !! next_req w = Some p1 /\
    forall wa ia o,
      pending wa !! ia = Some p1 ->
      (o = Rejected \/ exists d, o = Resolved (RConversations d)) ->
      let w2 := step wa (Settle ia o) in
      match route with
      | None => loading (view w2) = false /\ requests w2 = requests wa
      | Some uid =>
          loading (view w2) = loading (view wa) /\
          requests w2 = requests wa ++ [getMessages uid 1 100] /\
          exists p2, pending w2 !! next_req wa = Some p2 /\
            forall wb ib,
              pending wb !! ib = Some p2 ->
              loading (view (step wb (Settle ib Rejected))) = false /\
              forall d, exists p3,
                pending (step wb (Settle ib (Resolved (RThread d))))
                  !! next_req wb = Some p3 /\
                forall wc ic o3,
                  pending wc !! ic = Some p3 ->
                  loading (view (step wc (Settle ic o3))) = false
      end.
Proof.
  cbv zeta. split; [done|]. split; [done|].
  eexists. split; [apply lookup_insert_eq|].
  intros wa ia o Ha Ho.
  destruct route as [uid|]; destruct Ho as [->|[d ->]]; settle_here Ha;
    try done.
  all: split; [done|]; split; [done|].
  all: eexists; split; [apply lookup_insert_eq|].
  all: intros wb ib Hb; split; [by settle_here Hb|].
  all: intros d'; eexists; split;
    [settle_here Hb; destruct (mounted wb); apply lookup_insert_eq|].
  all: intros wc ic o3 Hc; destruct o3; by settle_here Hc.
Qed.

Lemma init_behaviour_witness :
  let w1 := run (init None) Sample.opened in
  loading (view w1) = true /\
  loading (view (step w1 (Settle 4 Rejected))) = false.
Proof.
  destruct (init_behaviour None Sample.opened) as (H1 & _ & p & Hp & H).
  split; [exact H1|].
  exact (proj1 (H _ 4%nat Rejected Hp (or_introl eq_refl))).
Defined.

(** ** What the enabled controls do *)

(** X5. Whenever the page lets the admin send (the button is enabled, or
    Enter is pressed in the enabled field on a text that is not blank), the
    handler posts exactly one message: to the selected user, with the
    compose text as typed, not trimmed, and the channel switch as it
    stands.  The text stays in the box, [sending] is set, and field and
    button are disabled from then on. *)
Theorem enabled_send_posts_once (w : World) (e : Event) :
  e = ClickSend \/ (e = PressEnter /\ blank (newMessage (view w)) = false) ->
  enabled w e = true ->
  exists su, selectedUser (view w) = Some su /\
    let w1 := step w e in
    requests w1 =
      requests w ++
      [sendMessage (User.id su) (newMessage (view w)) (sendViaWhatsApp (view w))] /\
    sending (view w1) = true /\
    newMessage (view w1) = newMessage (view w) /\
    enabled w1 ClickSend = false /\ enabled w1 PressEnter = false /\
    forall s, enabled w1 (ChangeText s) = false.
Proof.
  intros He Hen.
  assert (Hv : exists su, selectedUser (view w) = Some su /\
                 blank (newMessage (view w)) = false /\
                 dispatch w e = run (handleSend (view w)) w).
  { destruct He as [->|[-> Hb]]; simpl in Hen;
      repeat (apply andb_true_iff in Hen as [Hen ?]).
    - destruct (selectedUser (view w)) as [su|] eqn:Hsu; [|done].
      exists su. split; [done|]. split; [|done].
      rewrite truthy_trim in *. by destruct (sending (view w)), (blank _).
    - destruct (selectedUser (view w)) as [su|] eqn:Hsu; [|done]. by exists su. }
  destruct Hv as (su & Hsu & Hb & Hd). exists su. split; [done|].
  cbv zeta. unfold step. rewrite Hen, Hd, (handleSend_valid _ _ Hsu Hb).
  rewrite effects_quiet by (simpl; reflexivity). simpl.
  split_and!; try done.
  - by rewrite andb_false_r.
  - by rewrite andb_false_r.
  - intros _. by rewrite andb_false_r.
Qed.

Lemma enabled_send_posts_once_witness :
  requests (step Sample.drafted ClickSend) =
    requests Sample.drafted ++ [sendMessage 1 (lit "Hello") true].
Proof.
  destruct (enabled_send_posts_once Sample.drafted ClickSend
              (or_introl eq_refl) eq_refl) as (su & Hsu & H & _).
  injection Hsu as <-. exact H.
Defined.

(** X6. A click on a conversation requests that user's thread at once;
    header and messages stay until a body arrives.  Either that is all,
    or the change of route starts the initial load on top.  It does so
    whenever the route named no user or another one than the row clicked:
    the spinner is shown and hides the list, the conversations are
    requested, and when they have settled, either way, the thread of the
    clicked user is requested a second time. *)
Theorem click_conversation_behaviour (w : World) (i : nat) (conv : Conversation.t) :
  enabled w (ClickConversation i) = true ->
  conversations (view w) !! i = Some conv ->
  let id := User.id (Conversation.user conv) in
  let w1 := step w (ClickConversation i) in
  thread w1 = thread w /\
  conversations (view w1) = conversations (view w) /\
  ((loading (view w1) = false /\
    requests w1 = requests w ++ [getMessages id 1 100]) \/
   (loading (view w1) = true /\
    requests w1 = requests w ++ [getMessages id 1 100; getConversations 1 50 false])) /\
  (plain_id id -> userId w <> Some id ->
   loading (view w1) = true /\
   requests w1 = requests w ++ [getMessages id 1 100; getConversations 1 50 false] /\
   (forall j, enabled w1 (ClickConversation j) = false) /\
   exists p, pending w1 !! S (next_req w) = Some p /\
     forall wa ia o,
       pending wa !! ia = Some p ->
       (o = Rejected \/ exists d, o = Resolved (RConversations d)) ->
       requests (step wa (Settle ia o)) = requests wa ++ [getMessages id 1 100]).
Proof.
  intros Hen Hc. cbv zeta.
  assert (Hstep : step w (ClickConversation i) =
                  effects w (run (onClickConversation conv) w)).
  { unfold step. rewrite Hen. unfold dispatch. by rewrite Hc. }
  rewrite Hstep. clear Hstep. simpl in Hen. apply andb_true_iff in Hen as [Hm Hl].
  apply negb_true_iff in Hl.
  destruct (decide (userId w = Some (User.id (Conversation.user conv)))) as [Heq|Hne].
  - rewrite effects_quiet by (simpl; done). simpl.
    split_and!; [done|done|left; by rewrite Hl|done].
  - assert (Hs : effects w (run (onClickConversation conv) w) =
                 run (init (Some (User.id (Conversation.user conv))))
                   (run (onClickConversation conv) w)).
    { unfold effects. simpl. rewrite Hm. simpl.
      rewrite (bool_decide_eq_false_2 _ Hne). simpl.
      by rewrite bool_decide_eq_true_2 by done. }
    rewrite Hs.
    assert (Hr : requests (run (init (Some (User.id (Conversation.user conv))))
                             (run (onClickConversation conv) w)) =
                 requests w ++ [getMessages (User.id (Conversation.user conv)) 1 100;
                                getConversations 1 50 false])
      by (simpl; by rewrite <- app_assoc).
    split_and!; [done|done|right; by split|].
    intros _ _. split; [done|]. split; [exact Hr|].
    split; [intros; simpl; apply andb_false_r|].
    eexists. split; [simpl; apply lookup_insert_eq|].
    intros wa ia o Ha [->|[d ->]]; by settle_here Ha.
Qed.

Lemma click_conversation_behaviour_witness :
  requests (step Sample.opened (ClickConversation 1)) =
    requests Sample.opened ++ [getMessages 2 1 100; getConversations 1 50 false].
Proof.
  destruct (click_conversation_behaviour Sample.opened 1
              (Conversation.mk Sample.bob (Some Sample.msgB) 1) eq_refl eq_refl)
    as (_ & _ & _ & H).
  refine (proj1 (proj2 (H _ _))).
  - unfold plain_id. vm_compute. split; reflexivity.
  - vm_compute. discriminate.
Defined.

(** ** The polling interval and the user it polls *)

Lemma apply_ref a w :
  (selectedUserRef w <= selectedUserRef (apply a w))%nat /\
  (selectedUserRef (apply a w) = selectedUserRef w ->
   selectedUser (view (apply a w)) = selectedUser (view w)).
Proof. destruct a; simpl; split; try done; lia. Qed.

Lemma run_ref p w :
  (selectedUserRef w <= selectedUserRef (run p w))%nat /\
  (selectedUserRef (run p w) = selectedUserRef w ->
   selectedUser (view (run p w)) = selectedUser (view w)).
Proof.
  revert w. induction p as [|a k IH|q IHq k IHk| | | | |]; intros w; simpl;
    try done.
  - destruct (apply_ref a w) as [H1 H2], (IH (apply a w)) as [H3 H4].
    split; [lia|]. intros He. rewrite H4 by lia. apply H2. lia.
  - destruct (IHq w) as [H1 H2], (IHk (run q w)) as [H3 H4].
    split; [lia|]. intros He. rewrite H4 by lia. apply H2. lia.
Qed.

Lemma dispatch_ref w e :
  (selectedUserRef w <= selectedUserRef (dispatch w e))%nat /\
  (selectedUserRef (dispatch w e) = selectedUserRef w ->
   selectedUser (view (dispatch w e)) = selectedUser (view w)).
Proof.
  destruct e; unfold dispatch; try apply run_ref; try apply apply_ref; try done.
  - destruct (_ !! i); [apply run_ref | done].
  - unfold settle. destruct (pending w !! id); [|done].
    destruct (resume _ o); [|done]. apply (run_ref _ (unpark id w)).
  - destruct (_ !! t); [apply run_ref | done].
Qed.


(** While the page is mounted exactly one interval is live, and its
    callback is closed over the user the page shows now. *)
Lemma step_live_interval w e :
  (mounted w = true ->
   exists t, interval w = Some t /\ timers w = {[t := selectedUser (view w)]}) ->
  mounted (step w e) = true ->
  exists t, interval (step w e) = Some t /\
    timers (step w e) = {[t := selectedUser (view (step w e))]}.
Proof.
  intros Hw. unfold step. destruct (enabled w e) eqn:Hen; [|done].
  assert (e = Unmount \/ e <> Unmount) as [->|Hne]
    by (destruct e; (by left) || (by right)).
  { unfold effects, dispatch. by simpl. }
  pose proof (dispatch_polling w e Hne) as Hd.
  destruct (dispatch_ref w e) as [Hr1 Hr2].
  unfold effects.
  set (d := dispatch w e) in *.
  set (w1 := if mounted d && negb (bool_decide (userId w = userId d))
             then run (init (userId d)) d else d).
  assert (H1 : polling w1 = polling d /\
               (selectedUserRef d <= selectedUserRef w1)%nat /\
               (selectedUserRef w1 = selectedUserRef d ->
                selectedUser (view w1) = selectedUser (view d))).
  { subst w1. destruct (_ && _); [|done].
    split; [apply run_polling | apply run_ref]. }
  destruct H1 as (Hp1 & Hr3 & Hr4). clearbody w1.
  apply polling_fields in Hd as (Em & Ei & Et & En).
  apply polling_fields in Hp1 as (Em1 & Ei1 & Et1 & En1).
  destruct (mounted w1) eqn:Hm1; simpl; [|by rewrite Hm1].
  destruct Hw as (t & Hi & Ht); [congruence|].
  destruct (bool_decide (selectedUserRef w = selectedUserRef w1)) eqn:Hb; simpl.
  - intros _. apply bool_decide_eq_true_1 in Hb. exists t.
    split; [congruence|]. rewrite Et1, Et, Ht.
    rewrite Hr4 by lia. rewrite Hr2 by lia. done.
  - intros _. eexists. split; [done|].
    rewrite Ei1, Ei, Hi, Et1, Et, Ht. rewrite delete_singleton_eq.
    by rewrite insert_empty.
Qed.

Lemma reachable_live_interval w :
  reachable w -> mounted w = true ->
  exists t, interval w = Some t /\ timers w = {[t := selectedUser (view w)]}.
Proof.
  intros (route & es & ->). induction es as [|e es IH] using rev_ind.
  - intros _. exists 0%nat.
    set (w0 := mkWorld initialView route true 0 None ∅ 0 ∅ 0 [] []).
    pose proof (run_polling (init route) w0) as H.
    apply polling_fields in H as (Em & Ei & Et & En).
    change (steps (mount route) []) with (startPolling (run (init route) w0)).
    unfold startPolling. cbn [interval timers view].
    rewrite En, Et. subst w0. cbn [next_timer timers]. by rewrite insert_empty.
  - rewrite steps_snoc. by apply step_live_interval.
Qed.

(** X7. In every reachable state of the mounted page exactly one interval
    is live, and its callback was closed over the user now shown: a tick
    requests the conversations and, if a user is shown, that user's thread,
    and nothing else. *)
Theorem tick_polls_the_shown_user (w : World) :
  reachable w -> mounted w = true ->
  exists t, interval w = Some t /\
    timers w = {[t := selectedUser (view w)]} /\
    view (step w (Tick t)) = view w /\
    requests (step w (Tick t)) =
      requests w ++
      getConversations 1 50 false ::
      match selectedUser (view w) with
      | Some u => [getMessages (User.id u) 1 100]
      | None => []
      end.
Proof.
  intros Hw Hm. destruct (reachable_live_interval w Hw Hm) as (t & Hi & Ht).
  exists t. split; [done|]. split; [done|].
  assert (Hs : step w (Tick t) = run (pollCallback (selectedUser (view w))) w).
  { unfold step. simpl. rewrite Ht, lookup_singleton_eq.
    apply effects_quiet; by destruct (selectedUser (view w)). }
  rewrite Hs. destruct (selectedUser (view w)); simpl; split; try done.
  by rewrite <- app_assoc.
Qed.

Lemma tick_polls_the_shown_user_witness :
  exists t, interval Sample.opened = Some t /\
    timers Sample.opened = {[t := selectedUser (view Sample.opened)]}.
Proof.
  destruct (tick_polls_the_shown_user Sample.opened) as (t & H1 & H2 & _).
  - exists (Some 1), Sample.openedTrace. vm_compute. reflexivity.
  - reflexivity.
  - by exists t.
Defined.



(** ** The conversation list comes from one body *)

Lemma seq_cwf p k : cwf p -> cwf k -> cwf (seq p k).
Proof.
  intros Hp Hk. revert p Hp.
  apply (cwf_mut (fun p _ => cwf (seq p k)) (fun d p _ => replaces d (seq p k)));
    intros; simpl; try done; by constructor.
Qed.

Lemma fetchConversations_cwf : cwf fetchConversations.
Proof. constructor; [intros d | by repeat constructor]. by repeat constructor. Qed.

Lemma fetchMessages_cwf uid : cwf (fetchMessages uid).
Proof.
  constructor; [intros d | by repeat constructor].
  constructor; [done |]. constructor; [done |].
  constructor; [|by repeat constructor].
  constructor; [apply fetchConversations_cwf | constructor].
Qed.

Lemma handleSend_cwf v : cwf (handleSend v).
Proof.
  unfold handleSend.
  destruct (negb _ || negb _); [constructor|].
  destruct (selectedUser v); [|constructor].
  constructor; [done|]. constructor; [|by repeat constructor].
  constructor; [done|]. apply seq_cwf; [apply fetchMessages_cwf | by repeat constructor].
Qed.

Lemma handleToggleBot_cwf v : cwf (handleToggleBot v).
Proof.
  unfold handleToggleBot. destruct (selectedUser v); [|constructor].
  constructor; [intros d | by repeat constructor].
  constructor; [done|]. constructor; [apply fetchMessages_cwf|].
  constructor; [apply fetchConversations_cwf | constructor].
Qed.

Lemma init_cwf r : cwf (init r).
Proof.
  unfold init. constructor; [done|].
  apply seq_cwf; [apply fetchConversations_cwf|].
  destruct r; [|by repeat constructor].
  apply seq_cwf; [apply fetchMessages_cwf | by repeat constructor].
Qed.

Lemma pollCallback_cwf su : cwf (pollCallback su).
Proof.
  unfold pollCallback. constructor; [apply fetchConversations_cwf|].
  destruct su; [|constructor].
  constructor; [apply fetchMessages_cwf | constructor].
Qed.

Lemma onClickConversation_cwf conv : cwf (onClickConversation conv).
Proof.
  unfold onClickConversation. constructor; [done|].
  constructor; [apply fetchMessages_cwf | constructor].
Qed.

Lemma run_cwf p w :
  cwf p ->
  conversations (view (run p w)) = conversations (view w) /\
  (parked_cwf w -> parked_cwf (run p w)).
Proof.
  intros Hp. revert w.
  induction Hp as [|a k Ha _ IH|p k _ IHp _ IHk| | | | |]; intros w; simpl;
    try done.
  - destruct (IH (apply a w)) as [H1 H2]. split.
    + rewrite H1. by destruct a.
    + intros Hw. apply H2. unfold parked_cwf. by rewrite apply_pending.
  - destruct (IHp w) as [H1 H2], (IHk (run p w)) as [H3 H4].
    split; [congruence | auto].
  - split; [done|]. intros Hw. apply map_Forall_insert_2; [by constructor|done].
  - split; [done|]. intros Hw. apply map_Forall_insert_2; [by constructor|done].
  - split; [done|]. intros Hw. apply map_Forall_insert_2; [by constructor|done].
  - split; [done|]. intros Hw. apply map_Forall_insert_2; [by constructor|done].
  - split; [done|]. intros Hw. apply map_Forall_insert_2; [by constructor|done].
Qed.

Lemma resume_cwf p o k :
  cwf p -> resume p o = Some k ->
  cwf k \/ exists d, o = Resolved (RConversations d) /\ replaces d k.
Proof.
  intros Hp Hk.
  destruct Hp as [| | | ? ? ? ? ? Hc| | | |]; simpl in Hk; try discriminate.
  all: destruct o as [|[]]; simplify_eq; auto.
  right. eauto.
Qed.

Lemma effects_cwf old new :
  parked_cwf new ->
  parked_cwf (effects old new) /\
  conversations (view (effects old new)) = conversations (view new).
Proof.
  intros Hn. unfold effects.
  set (w1 := if mounted new && negb (bool_decide (userId old = userId new))
             then run (init (userId new)) new else new).
  assert (H1 : parked_cwf w1 /\
               conversations (view w1) = conversations (view new)).
  { subst w1. destruct (_ && _); [|by split].
    destruct (run_cwf (init (userId new)) new (init_cwf _)) as [H1 H2]. auto. }
  destruct H1 as [H1 H2]. clearbody w1.
  destruct (_ && _); (split; [exact H1 | exact H2]).
Qed.

(** A step either leaves the list alone or is the arrival of a
    conversations body, whose list it stores. *)
Lemma step_cwf w e :
  parked_cwf w ->
  parked_cwf (step w e) /\
  (conversations (view (step w e)) = conversations (view w) \/
   exists id d, e = Settle id (Resolved (RConversations d)) /\
     conversations (view (step w e)) = ConversationsPage.data d).
Proof.
  intros Hw. unfold step. destruct (enabled w e); [|by auto].
  assert (Hd : parked_cwf (dispatch w e) /\
    (conversations (view (dispatch w e)) = conversations (view w) \/
     exists id d, e = Settle id (Resolved (RConversations d)) /\
       conversations (view (dispatch w e)) = ConversationsPage.data d)).
  { destruct e; unfold dispatch.
    - destruct (run_cwf _ w fetchConversations_cwf); auto.
    - destruct (conversations (view w) !! i); [|by auto].
      destruct (run_cwf _ w (onClickConversation_cwf t)); auto.
    - destruct (run_cwf _ w (handleToggleBot_cwf (view w))); auto.
    - by auto.
    - by auto.
    - destruct (run_cwf _ w (handleSend_cwf (view w))); auto.
    - destruct (run_cwf _ w (handleSend_cwf (view w))); auto.
    - unfold settle. destruct (pending w !! id) as [p|] eqn:Hp; [|by auto].
      destruct (resume p o) as [k|] eqn:Hk; [|by auto].
      assert (Hu : parked_cwf (unpark id w)) by by apply map_Forall_delete.
      destruct (resume_cwf _ _ _ (Hw _ _ Hp) Hk) as [Hk'|(d & -> & Hc)].
      + destruct (run_cwf k (unpark id w) Hk') as [H1 H2]. auto.
      + destruct Hc as [d k Hk'].
        destruct (run_cwf k (apply (setConversations (ConversationsPage.data d))
                               (unpark id w)) Hk') as [H1 H2].
        split; [by apply H2|]. right. exists id, d. split; [done|]. exact H1.
    - destruct (timers w !! t); [|by auto].
      destruct (run_cwf _ w (pollCallback_cwf o)); auto.
    - by auto. }
  destruct Hd as [Hd1 Hd2].
  destruct (effects_cwf w _ Hd1) as [He1 He2].
  split; [done|]. by rewrite He2.
Qed.

Lemma reachable_parked_cwf w : reachable w -> parked_cwf w.
Proof.
  intros (route & es & ->). induction es as [|e es IH] using rev_ind.
  - change (parked_cwf (run (init route)
              (mkWorld initialView route true 0 None ∅ 0 ∅ 0 [] []))).
    apply run_cwf; [apply init_cwf | apply map_Forall_empty].
  - rewrite steps_snoc. by apply step_cwf.
Qed.

(** X9. The conversation list is replaced wholesale and only by the
    backend: in every reachable state it is empty, as at the start, or
    exactly the list of one conversations body that was delivered, and a
    step changes it only by storing the list of the body that arrives in
    that step.  Nothing is merged, and failures, clicks, ticks and sends
    leave it alone. *)
Theorem conversations_from_one_response (route : option Z) (es : list Event) :
  let w := steps (mount route) es in
  (conversations (view w) = [] \/
   exists id d, Settle id (Resolved (RConversations d)) ∈ es /\
     conversations (view w) = ConversationsPage.data d) /\
  (forall e,
     conversations (view (step w e)) <> conversations (view w) ->
     exists id d, e = Settle id (Resolved (RConversations d)) /\
       conversations (view (step w e)) = ConversationsPage.data d).
Proof.
  cbv zeta. split.
  - induction es as [|e es IH] using rev_ind.
    + left.
      change (conversations (view (run (init route)
                (mkWorld initialView route true 0 None ∅ 0 ∅ 0 [] []))) = []).
      by rewrite (proj1 (run_cwf _ _ (init_cwf route))).
    + rewrite steps_snoc.
      destruct (step_cwf (steps (mount route) es) e)
        as [_ [Hs|(id & d & -> & Hs)]].
      * apply reachable_parked_cwf. by eexists _, _.
      * rewrite Hs. destruct IH as [IH|(id & d & Hd & IH)]; [by left|].
        right. exists id, d. split; [|done]. apply elem_of_app. by left.
      * right. exists id, d. split; [|done]. apply elem_of_app. right.
        by apply list_elem_of_singleton.
  - intros e Hne.
    destruct (step_cwf (steps (mount route) es) e) as [_ [Hs|Hs]]; [|done|done].
    apply reachable_parked_cwf. by eexists _, _.
Qed.

Lemma conversations_from_one_response_witness :
  let es := Sample.openedTrace ++ [ClickRefresh] in
  let e := Settle 4 (Resolved (RConversations (ConversationsPage.mk [] 0))) in
  exists id d, e = Settle id (Resolved (RConversations d)) /\
    conversations (view (step (steps (mount (Some 1)) es) e)) =
      ConversationsPage.data d.
Proof.
  apply (proj2 (conversations_from_one_response (Some 1)
                  (Sample.openedTrace ++ [ClickRefresh]))).
  vm_compute. discriminate.
Defined.

(** ** Flags follow the requests in flight *)

Lemma grows_refl Q w : fresh w -> grows Q w w.
Proof.
  intros Hf. split_and!; try done.
  intros id q Hle Hq. apply Hf in Hq. lia.
Qed.

Lemma grows_trans Q w1 w2 w3 : grows Q w1 w2 -> grows Q w2 w3 -> grows Q w1 w3.
Proof.
  intros (Hu1 & Hn1 & Ho1 & Hq1) (Hu2 & Hn2 & Ho2 & Hq2). split_and!.
  - congruence.
  - lia.
  - intros id Hid. rewrite Ho2 by lia. by apply Ho1.
  - intros id q Hle Hq. destruct (decide (id < next_req w2)%nat) as [Hlt|Hge].
    + rewrite Ho2 in Hq by done. destruct (Hq1 id q Hle Hq). split; [lia|done].
    + apply Hq2; [lia|done].
Qed.

Lemma grows_weaken (Q Q' : nat -> Async -> Prop) w w' :
  (forall id q, Q id q -> Q' id q) -> grows Q w w' -> grows Q' w w'.
Proof.
  intros HQ (Hu & Hn & Ho & Hq). split_and!; try done.
  intros id q Hle Hl. destruct (Hq id q Hle Hl). auto.
Qed.

Lemma grows_fresh Q w w' : fresh w -> grows Q w w' -> fresh w'.
Proof.
  intros Hf (Hu & Hn & Ho & Hq) id p Hp.
  destruct (decide (id < next_req w)%nat) as [Hlt|Hge]; [lia|].
  apply (Hq id p); [lia|done].
Qed.

Lemma apply_grows Q a w : stays a -> fresh w -> grows Q w (apply a w).
Proof.
  intros Ha Hf. split_and!.
  - by destruct a.
  - by destruct a.
  - intros id _. by rewrite apply_pending.
  - intros id q Hle Hq. rewrite apply_pending in Hq. apply Hf in Hq. lia.
Qed.

Lemma suspend_grows (Q : nat -> Async -> Prop) p c w :
  fresh w -> Q (next_req w) p -> grows Q w (suspend p c w).
Proof.
  intros Hf HQ. split_and!; simpl; try done.
  - lia.
  - intros id Hid. apply lookup_insert_ne. lia.
  - intros id q Hle Hq. destruct (decide (next_req w = id)) as [<-|Hne].
    + rewrite lookup_insert_eq in Hq. injection Hq as <-. split; [lia|done].
    + rewrite lookup_insert_ne in Hq by done. apply Hf in Hq. lia.
Qed.

Section Flag.

Context (writes : Action -> option bool) (plain : Async -> Prop)
        (vflag : View -> bool).

Hypothesis apply_flag :
  forall a w, vflag (view (apply a w)) = default (vflag (view w)) (writes a).

Let N := neutral writes plain.
Let R := releases writes plain.
Let Inv := flag_inv writes plain vflag.

Lemma neutral_not_releases p : N p -> R true p -> False.
Proof.
  intros Hn. induction Hn as [|a k Ha _ _ IH|q k _ _ _ IH
    |? ? ? ? ? _ _ _ _ IH|? ? ? ? ? _ _ _ _ IH|? ? ? ? ? _ _ _ _ IH
    |? ? ? _ _ _ _ IH|? ? ? _ _ _ _ IH]; intros Hr; inversion Hr; subst; auto.
  apply IH. by rewrite Ha in *.
Qed.

Lemma resume_neutral p o k : N p -> resume p o = Some k -> N k.
Proof.
  unfold N. intros Hp Hk. destruct Hp; simpl in Hk; try discriminate;
    destruct o as [|[]]; simplify_eq; auto.
Qed.

Lemma resume_releases p o k : R true p -> resume p o = Some k -> R true k.
Proof.
  unfold R. intros Hp Hk. inversion Hp; subst; simpl in Hk; try discriminate;
    destruct o as [|[]]; simplify_eq; auto.
Qed.

Lemma run_neutral p :
  N p -> forall w, fresh w ->
  grows (fun _ q => N q) w (run p w) /\
  vflag (view (run p w)) = vflag (view w).
Proof.
  intros Hp. induction Hp as [|a k Ha Hs _ IH|q k _ IHq _ IHk
    | | | | |]; intros w Hf; simpl.
  - split; [by apply grows_refl | done].
  - pose proof (apply_grows (fun _ q => N q) a w Hs Hf) as Hg.
    destruct (IH (apply a w) (grows_fresh _ _ _ Hf Hg)) as [Hg' Hv].
    split; [by eapply grows_trans|]. by rewrite Hv, apply_flag, Ha.
  - destruct (IHq w Hf) as [Hg Hv].
    destruct (IHk (run q w) (grows_fresh _ _ _ Hf Hg)) as [Hg' Hv'].
    split; [by eapply grows_trans | congruence].
  - split; [|done]. apply suspend_grows; [done | by constructor].
  - split; [|done]. apply suspend_grows; [done | by constructor].
  - split; [|done]. apply suspend_grows; [done | by constructor].
  - split; [|done]. apply suspend_grows; [done | by constructor].
  - split; [|done]. apply suspend_grows; [done | by constructor].
Qed.

Lemma run_releases b p :
  R b p -> forall w, fresh w -> vflag (view w) = b ->
  (vflag (view (run p w)) = false /\ grows (fun _ q => N q) w (run p w)) \/
  (vflag (view (run p w)) = true /\
   exists i q, pending (run p w) !! i = Some q /\ (next_req w <= i)%nat /\
     R true q /\ grows (fun id q' => id <> i -> N q') w (run p w)).
Proof.
  intros Hp. induction Hp as [|b a k Hs _ IH|b q k Hq _ IH
    | | | | |]; intros w Hf Hb; simpl.
  - left. split; [done | by apply grows_refl].
  - assert (Hf' : fresh (apply a w))
      by (eapply grows_fresh; [done | by apply (apply_grows (fun _ _ => True))]).
    destruct (IH (apply a w) Hf') as [[Hv Hg]|(Hv & i & q & Hi & Hle & Hr & Hg)].
    + by rewrite apply_flag, Hb.
    + left. split; [done|]. eapply grows_trans; [by apply apply_grows | done].
    + right. split; [done|]. exists i, q. split_and!; try done.
      * destruct a; simpl in *; lia.
      * eapply grows_trans; [by apply apply_grows | done].
  - destruct (run_neutral q Hq w Hf) as [Hg0 Hv0].
    assert (Hf' : fresh (run q w)) by by eapply grows_fresh.
    destruct Hg0 as (Hu0 & Hn0 & Ho0 & Hq0).
    destruct (IH (run q w) Hf') as [[Hv Hg]|(Hv & i & q' & Hi & Hle & Hr & Hg)].
    + congruence.
    + left. split; [done|]. eapply grows_trans; [|done]. by split_and!.
    + right. split; [done|]. exists i, q'. split_and!; try done; [lia|].
      eapply grows_trans; [|done]. split_and!; try done.
      intros id q0 Hle' Hl. destruct (Hq0 id q0 Hle' Hl). auto.
  - right. split; [done|]. eexists _, _. split_and!;
      [apply lookup_insert_eq | done | by constructor | by apply suspend_grows].
  - right. split; [done|]. eexists _, _. split_and!;
      [apply lookup_insert_eq | done | by constructor | by apply suspend_grows].
  - right. split; [done|]. eexists _, _. split_and!;
      [apply lookup_insert_eq | done | by constructor | by apply suspend_grows].
  - right. split; [done|]. eexists _, _. split_and!;
      [apply lookup_insert_eq | done | by constructor | by apply suspend_grows].
  - right. split; [done|]. eexists _, _. split_and!;
      [apply lookup_insert_eq | done | by constructor | by apply suspend_grows].
Qed.

Lemma flag_inv_ext w w' :
  vflag (view w') = vflag (view w) -> pending w' = pending w ->
  next_req w' = next_req w ->
  Inv w -> Inv w'.
Proof.
  intros Hv Hp Hn (Hf & o & Hc & Ho). split.
  - intros id p. rewrite Hp, Hn. apply Hf.
  - exists o. split.
    + intros id q. rewrite Hp. apply Hc.
    + rewrite Hv, Hp. exact Ho.
Qed.

Lemma inv_all_neutral w :
  Inv w -> vflag (view w) = false -> classified writes plain None w.
Proof.
  intros (Hf & o & Hc & Ho) Hv. destruct o as [i|]; [|done].
  destruct Ho. congruence.
Qed.

Lemma inv_run_neutral p w :
  N p -> Inv w ->
  Inv (run p w) /\ userId (run p w) = userId w /\
  vflag (view (run p w)) = vflag (view w).
Proof.
  intros Hp (Hf & o & Hc & Ho).
  destruct (run_neutral p Hp w Hf) as [Hg Hv].
  split; [|split; [apply Hg | done]].
  split; [by eapply grows_fresh|]. exists o.
  destruct Hg as (Hu & Hn & Hold & Hnew). split.
  - intros id q Hq. destruct (decide (id < next_req w)%nat) as [Hlt|Hge].
    + rewrite Hold in Hq by done. by apply Hc.
    + right. destruct (Hnew id q) as [_ HN]; [lia|done|]. split; [|done].
      intros ->. destruct Ho as [_ [x Hx]]. apply Hf in Hx. lia.
  - rewrite Hv. destruct o as [i|]; [|done]. destruct Ho as [Ho [x Hx]].
    split; [done|]. exists x. rewrite Hold; [done|]. by apply Hf in Hx.
Qed.

Lemma inv_run_releases p w :
  R (vflag (view w)) p -> fresh w -> classified writes plain None w ->
  Inv (run p w) /\ userId (run p w) = userId w.
Proof.
  intros Hp Hf Hc.
  destruct (run_releases _ p Hp w Hf eq_refl)
    as [[Hv Hg]|(Hv & i & q & Hi & Hle & Hr & Hg)].
  - split; [|apply Hg]. split; [by eapply grows_fresh|]. exists None.
    split; [|done]. destruct Hg as (Hu & Hn & Hold & Hnew).
    intros id q Hq. destruct (decide (id < next_req w)%nat) as [Hlt|Hge].
    + rewrite Hold in Hq by done. by apply Hc.
    + right. split; [done|]. apply (Hnew id q); [lia|done].
  - split; [|apply Hg]. split; [by eapply grows_fresh|]. exists (Some i).
    split; [|by eauto]. destruct Hg as (Hu & Hn & Hold & Hnew).
    intros id q' Hq. destruct (decide (id < next_req w)%nat) as [Hlt|Hge].
    + rewrite Hold in Hq by done. destruct (Hc id q' Hq) as [[? _]|[_ HN]]; [done|].
      right. split; [|done]. intros [= ->]. lia.
    + destruct (decide (id = i)) as [->|Hne].
      * left. split; [done|]. rewrite Hi in Hq. injection Hq as <-. exact Hr.
      * right. split; [congruence|]. apply (Hnew id q'); [lia|done|done].
Qed.

Lemma inv_settle id o w :
  Inv w -> Inv (settle id o w) /\ userId (settle id o w) = userId w.
Proof.
  intros HI. unfold settle.
  destruct (pending w !! id) as [p|] eqn:Hp; [|done].
  destruct (resume p o) as [k|] eqn:Hk; [|done].
  destruct HI as (Hf & o0 & Hc & Ho).
  assert (Hfu : fresh (unpark id w)).
  { intros i q Hq. simpl in Hq. apply lookup_delete_Some in Hq as [_ Hq].
    by apply Hf in Hq. }
  destruct (Hc id p Hp) as [[-> Hr]|[Hne Hn]].
  - destruct Ho as [Hv _].
    apply (inv_run_releases k (unpark id w)); [|done|].
    + simpl. rewrite Hv. by eapply resume_releases.
    + intros i q Hq. simpl in Hq. apply lookup_delete_Some in Hq as [Hi Hq].
      right. split; [done|]. destruct (Hc i q Hq) as [[? _]|[_ ?]]; [|done].
      congruence.
  - destruct (inv_run_neutral k (unpark id w)) as (H1 & H2 & _).
    + by eapply resume_neutral.
    + split; [done|]. exists o0. split.
      * intros i q Hq. simpl in Hq. apply lookup_delete_Some in Hq as [_ Hq].
        by apply Hc.
      * destruct o0 as [i|]; [|done]. destruct Ho as [Hv [x Hx]].
        split; [done|]. exists x. simpl. rewrite lookup_delete_ne; [done|].
        congruence.
    + done.
Qed.

Hypothesis fetchConversations_neutral : N fetchConversations.
Hypothesis fetchMessages_neutral : forall uid, N (fetchMessages uid).
Hypothesis handleToggleBot_neutral : forall v, N (handleToggleBot v).
Hypothesis typing_neutral :
  forall s b, writes (setNewMessage s) = None /\
              writes (setSendViaWhatsApp b) = None.
Hypothesis handleSend_gated :
  forall w e, e = PressEnter \/ e = ClickSend -> enabled w e = true ->
    N (handleSend (view w)) \/
    (vflag (view w) = false /\ R false (handleSend (view w))).
Hypothesis init_gated :
  (vflag initialView = false /\ forall r, N (init r)) \/
  ((forall r b, R b (init r)) /\
   forall w i, enabled w (ClickConversation i) = true -> vflag (view w) = false).

Lemma inv_dispatch w e :
  Inv w -> enabled w e = true ->
  Inv (dispatch w e) /\
  (userId (dispatch w e) <> userId w ->
   vflag (view (dispatch w e)) = vflag (view w) /\
   exists i, e = ClickConversation i).
Proof.
  intros HI Hen. destruct e; unfold dispatch.
  - destruct (inv_run_neutral _ w fetchConversations_neutral HI) as (? & ? & ?).
    by split.
  - destruct (conversations (view w) !! i) as [conv|]; [|by split].
    set (w' := apply (navigate (User.id (Conversation.user conv))) w).
    change (run (onClickConversation conv) w)
      with (run (fetchMessages (User.id (Conversation.user conv))) w').
    assert (HI' : Inv w') by (by apply (flag_inv_ext w w')).
    destruct (inv_run_neutral (fetchMessages (User.id (Conversation.user conv))) w')
      as (H1 & H2 & H3); [done | done |].
    split; [done|]. intros _. split; [|by eauto].
    rewrite H3. by subst w'.
  - destruct (inv_run_neutral _ w (handleToggleBot_neutral (view w)) HI) as (? & ? & ?).
    by split.
  - split; [|done]. apply (flag_inv_ext w); try done.
    rewrite apply_flag. by rewrite (proj2 (typing_neutral [] b)).
  - split; [|done]. apply (flag_inv_ext w); try done.
    rewrite apply_flag. by rewrite (proj1 (typing_neutral s true)).
  - destruct (handleSend_gated w PressEnter (or_introl eq_refl) Hen) as [Hn|[Hv Hr]].
    + destruct (inv_run_neutral _ w Hn HI) as (? & ? & ?). by split.
    + destruct (inv_run_releases (handleSend (view w)) w) as [H1 H2].
      * by rewrite Hv.
      * apply HI.
      * by apply inv_all_neutral.
      * by split.
  - destruct (handleSend_gated w ClickSend (or_intror eq_refl) Hen) as [Hn|[Hv Hr]].
    + destruct (inv_run_neutral _ w Hn HI) as (? & ? & ?). by split.
    + destruct (inv_run_releases (handleSend (view w)) w) as [H1 H2].
      * by rewrite Hv.
      * apply HI.
      * by apply inv_all_neutral.
      * by split.
  - destruct (inv_settle id o w HI). by split.
  - destruct (timers w !! t) as [su|]; [|by split].
    assert (Hn : N (pollCallback su)).
    { unfold N, pollCallback. apply neutral_Call; [done|].
      destruct su; [|apply neutral_Done].
      apply neutral_Call; [apply fetchMessages_neutral | apply neutral_Done]. }
    destruct (inv_run_neutral _ w Hn HI) as (? & ? & ?). by split.
  - split; [|done]. by apply (flag_inv_ext w).
Qed.

Lemma inv_step w e : Inv w -> Inv (step w e).
Proof.
  intros HI. unfold step. destruct (enabled w e) eqn:Hen; [|done].
  destruct (inv_dispatch w e HI Hen) as [Hd Hu].
  unfold effects. set (d := dispatch w e) in *.
  assert (H1 : Inv (if mounted d && negb (bool_decide (userId w = userId d))
                    then run (init (userId d)) d else d)).
  { destruct (mounted d && negb (bool_decide (userId w = userId d))) eqn:Hc;
      [|done].
    apply andb_true_iff in Hc as [_ Hb]. apply negb_true_iff in Hb.
    apply bool_decide_eq_false_1 in Hb.
    destruct Hu as (Hv & i & ->); [congruence|].
    destruct init_gated as [[_ Hn]|[Hr Hg]].
    - apply (inv_run_neutral _ _ (Hn _) Hd).
    - apply inv_run_releases; [apply Hr | apply Hd |].
      apply inv_all_neutral; [done|]. rewrite Hv. by eapply Hg. }
  set (w1 := if mounted d && negb (bool_decide (userId w = userId d))
             then run (init (userId d)) d else d) in *.
  clearbody w1. destruct (_ && _); [|done]. by apply (flag_inv_ext w1).
Qed.

Lemma inv_mount route : Inv (mount route).
Proof.
  set (w0 := mkWorld initialView route true 0 None ∅ 0 ∅ 0 [] []).
  assert (Hf : fresh w0)
    by (intros id p Hp; unfold w0 in Hp; simpl in Hp;
        by rewrite lookup_empty in Hp).
  assert (Hc : classified writes plain None w0)
    by (intros id p Hp; unfold w0 in Hp; simpl in Hp;
        by rewrite lookup_empty in Hp).
  assert (H1 : Inv (run (init route) w0)).
  { destruct init_gated as [[Hv Hn]|[Hr _]].
    - apply (inv_run_neutral _ w0 (Hn route)). split; [done|]. by exists None.
    - by apply inv_run_releases. }
  by eapply flag_inv_ext; [..|exact H1].
Qed.

Lemma inv_reachable w : reachable w -> Inv w.
Proof.
  intros (route & es & ->). induction es as [|e es IH] using rev_ind.
  - apply inv_mount.
  - rewrite steps_snoc. by apply inv_step.
Qed.

End Flag.

Lemma seq_neutral writes plain p k :
  (forall q, suspended q -> plain q -> plain (seq q k)) ->
  neutral writes plain p -> neutral writes plain k ->
  neutral writes plain (seq p k).
Proof.
  intros Hpl Hp Hk.
  induction Hp as [|a k' Ha Hs _ IH|q k' Hq _ _ IH
                   |pg pp uo kOk kErr Hpp _ IHo _ IHe
                   |u pg pp kOk kErr Hpp _ IHo _ IHe
                   |u c wa kOk kErr Hpp _ IHo _ IHe
                   |u kOk kErr Hpp _ IHo _ IHe
                   |u kOk kErr Hpp _ IHo _ IHe].
  - done.
  - by apply neutral_Act.
  - by apply neutral_Call.
  - pose proof (Hpl (AwaitConversations pg pp uo kOk kErr) I Hpp).
    by apply neutral_AwaitConversations.
  - pose proof (Hpl (AwaitMessages u pg pp kOk kErr) I Hpp).
    by apply neutral_AwaitMessages.
  - pose proof (Hpl (AwaitSend u c wa kOk kErr) I Hpp).
    by apply neutral_AwaitSend.
  - pose proof (Hpl (AwaitToggle u kOk kErr) I Hpp).
    by apply neutral_AwaitToggle.
  - pose proof (Hpl (AwaitMarkRead u kOk kErr) I Hpp).
    by apply neutral_AwaitMarkRead.
Qed.

Lemma seq_neutral_releases writes plain p k :
  neutral writes plain p -> releases writes plain true k ->
  releases writes plain true (seq p k).
Proof.
  intros Hp Hk.
  induction Hp as [|a k' Ha Hs _ IH|q k' Hq _ _ IH
                   |pg pp uo kOk kErr Hpp _ IHo _ IHe
                   |u pg pp kOk kErr Hpp _ IHo _ IHe
                   |u c wa kOk kErr Hpp _ IHo _ IHe
                   |u kOk kErr Hpp _ IHo _ IHe
                   |u kOk kErr Hpp _ IHo _ IHe]; simpl.
  - done.
  - apply releases_Act; [done|]. by rewrite Ha.
  - by apply releases_Call.
  - by apply releases_AwaitConversations.
  - by apply releases_AwaitMessages.
  - by apply releases_AwaitSend.
  - by apply releases_AwaitToggle.
  - by apply releases_AwaitMarkRead.
Qed.

Lemma not_a_post_seq k q :
  suspended q -> not_a_post q -> not_a_post (seq q k).
Proof. by destruct q. Qed.

Lemma sending_processes :
  neutral writes_sending not_a_post fetchConversations /\
  (forall uid, neutral writes_sending not_a_post (fetchMessages uid)) /\
  (forall v, neutral writes_sending not_a_post (handleToggleBot v)) /\
  (forall r, neutral writes_sending not_a_post (init r)).
Proof.
  assert (Hc : neutral writes_sending not_a_post fetchConversations)
    by (by repeat (constructor; try done; try intros)).
  assert (Hm : forall uid, neutral writes_sending not_a_post (fetchMessages uid)).
  { intros uid. constructor; [done| |by repeat constructor].
    intros d. repeat (constructor; try done). }
  split_and!; try done.
  - intros v. unfold handleToggleBot. destruct (selectedUser v); [|constructor].
    constructor; [done| |by repeat constructor].
    intros d. repeat (constructor; try done).
  - intros r. unfold init. constructor; [done|done|].
    apply seq_neutral; [intros q; apply not_a_post_seq|done|].
    destruct r; [|by repeat constructor].
    apply seq_neutral; [intros q; apply not_a_post_seq|done|by repeat constructor].
Qed.

Lemma loading_processes :
  neutral writes_loading any_await fetchConversations /\
  (forall uid, neutral writes_loading any_await (fetchMessages uid)) /\
  (forall v, neutral writes_loading any_await (handleToggleBot v)) /\
  (forall v, neutral writes_loading any_await (handleSend v)) /\
  (forall r b, releases writes_loading any_await b (init r)).
Proof.
  assert (Hc : neutral writes_loading any_await fetchConversations)
    by (by repeat (constructor; try done; try intros)).
  assert (Hm : forall uid, neutral writes_loading any_await (fetchMessages uid)).
  { intros uid. constructor; [done| |by repeat constructor].
    intros d. repeat (constructor; try done). }
  split_and!; try done.
  - intros v. unfold handleToggleBot. destruct (selectedUser v); [|constructor].
    constructor; [done| |by repeat constructor].
    intros d. repeat (constructor; try done).
  - intros v. unfold handleSend. destruct (negb _ || negb _); [constructor|].
    destruct (selectedUser v); [|constructor].
    constructor; [done|done|]. constructor; [done| |by repeat constructor].
    constructor; [done|done|]. apply seq_neutral; [done|done|by repeat constructor].
  - intros r b. unfold init. constructor; [done|].
    change (default b (writes_loading (setLoading true))) with true.
    assert (Ht : releases writes_loading any_await true (setLoading false ;; Done)%async)
      by (constructor; [done|]; constructor).
    apply seq_neutral_releases; [done|]. destruct r; [|done].
    by apply seq_neutral_releases.
Qed.

Lemma sending_inv w :
  reachable w -> flag_inv writes_sending not_a_post sending w.
Proof.
  destruct sending_processes as (Hc & Hm & Ht & Hi).
  apply inv_reachable; try done.
  - intros a v. by destruct a.
  - intros v e He Hen.
    assert (Hs : sending (view v) = false).
    { destruct He as [->| ->]; simpl in Hen;
        apply andb_true_iff in Hen as [_ Hen]; apply negb_true_iff in Hen;
        [done|]. by apply orb_false_iff in Hen as [? _]. }
    unfold handleSend. destruct (negb _ || negb _); [left; constructor|].
    destruct (selectedUser (view v)); [|left; constructor].
    right. split; [done|]. constructor; [done|].
    change (default false (writes_sending (setSending true))) with true.
    constructor; [|by repeat constructor].
    constructor; [done|].
    change (default true (writes_sending (setNewMessage []))) with true.
    apply seq_neutral_releases; [done|]. by repeat constructor.
  - left. by split.
Qed.

Lemma loading_inv w :
  reachable w -> flag_inv writes_loading any_await loading w.
Proof.
  destruct loading_processes as (Hc & Hm & Ht & Hs & Hi).
  apply inv_reachable; try done.
  - intros a v. by destruct a.
  - intros v e _ _. by left.
  - right. split; [done|]. intros v i Hen. simpl in Hen.
    apply andb_true_iff in Hen as [_ Hen]. by apply negb_true_iff in Hen.
Qed.

(** X10. The flags never outlive the requests.  In every reachable state,
    [sending] is true only while a request of a send is in flight and
    [loading] only while a request of the initial load is in flight; so
    once no request is outstanding, the spinner is gone and the compose
    field and the send button are released, whatever succeeded or
    failed. *)
Theorem flags_need_a_request_in_flight (w : World) :
  reachable w ->
  (sending (view w) = true -> exists id p, pending w !! id = Some p) /\
  (loading (view w) = true -> exists id p, pending w !! id = Some p) /\
  (pending w = ∅ -> loading (view w) = false /\ sending (view w) = false).
Proof.
  intros Hw.
  destruct (sending_inv w Hw) as (_ & os & _ & Hs).
  destruct (loading_inv w Hw) as (_ & ol & _ & Hl).
  split_and!.
  - intros H. destruct os as [i|]; [|congruence].
    destruct Hs as [_ [p Hp]]. eauto.
  - intros H. destruct ol as [i|]; [|congruence].
    destruct Hl as [_ [p Hp]]. eauto.
  - intros He. rewrite He in *. split.
    + destruct ol as [i|]; [|done]. destruct Hl as [_ [p Hp]].
      by rewrite lookup_empty in Hp.
    + destruct os as [i|]; [|done]. destruct Hs as [_ [p Hp]].
      by rewrite lookup_empty in Hp.
Qed.

Lemma flags_need_a_request_in_flight_witness :
  loading (view Sample.opened) = false /\ sending (view Sample.opened) = false.
Proof.
  apply (flags_need_a_request_in_flight Sample.opened).
  - exists (Some 1), Sample.openedTrace. vm_compute. reflexivity.
  - vm_compute. reflexivity.
Defined.

(** X11. At most one post is in flight at any time: in every reachable
    state, if the request of a send is outstanding then [sending] is true
    and no second send request is outstanding.  The page, not
    [handleSend], keeps sends from overlapping. *)
Theorem at_most_one_post_in_flight
    (w : World) (i : nat) (u : Z) (c : jsstring) (wa : bool) (kOk kErr : Async) :
  reachable w ->
  pending w !! i = Some (AwaitSend u c wa kOk kErr) ->
  sending (view w) = true /\
  forall j u' c' wa' kOk' kErr',
    pending w !! j = Some (AwaitSend u' c' wa' kOk' kErr') -> j = i.
Proof.
  intros Hw Hi. destruct (sending_inv w Hw) as (_ & o & Hc & Ho).
  assert (Hpost : forall j u' c' wa' k1 k2,
            pending w !! j = Some (AwaitSend u' c' wa' k1 k2) -> o = Some j).
  { intros j u' c' wa' k1 k2 Hj.
    destruct (Hc _ _ Hj) as [[? _]|[_ Hn]]; [done|]. by inversion Hn. }
  pose proof (Hpost _ _ _ _ _ _ Hi) as ->. split; [apply Ho|].
  intros j u' c' wa' k1 k2 Hj. apply Hpost in Hj. congruence.
Qed.

Lemma at_most_one_post_in_flight_witness :
  sending (view Sample.midSend) = true.
Proof.
  eapply (at_most_one_post_in_flight Sample.midSend 4).
  - exists (Some 1), (Sample.openedTrace ++ [ChangeText (lit "Hello"); ClickSend]).
    vm_compute. reflexivity.
  - vm_compute. reflexivity.
Defined.

(** ** Unmounting cancels no request *)

Lemma effects_unmounted old new : mounted new = false -> effects old new = new.
Proof. intros Hm. unfold effects. rewrite Hm. simpl. by rewrite Hm. Qed.

Lemma settle_mounted id o w : mounted (settle id o w) = mounted w.
Proof.
  pose proof (settle_polling id o w) as H.
  by apply polling_fields in H as (Em & _).
Qed.

(** X12. Unmounting stops the interval and nothing else: the requests in
    flight stay registered and the state is untouched.  Whatever comes
    afterwards, a response that arrives for a function still waiting runs
    the rest of that function in full, follow-up requests included; no
    effect runs any more.  So a thread that arrives after the page was
    left is still marked as read. *)
Theorem unmount_cancels_no_request (w : World) :
  mounted w = true ->
  let w1 := step w Unmount in
  (pending w1 = pending w /\ view w1 = view w /\ requests w1 = requests w) /\
  forall es id o p k,
    let w2 := steps w1 es in
    pending w2 !! id = Some p -> resume p o = Some k ->
    step w2 (Settle id o) = run k (unpark id w2) /\
    requests (step w2 (Settle id o)) = requests w2 ++ requested (observe k []) /\
    (forall uid d, p = fetchMessages uid -> o = Resolved (RThread d) ->
       requests (step w2 (Settle id o)) = requests w2 ++ [markAsRead uid]).
Proof.
  intros Hm w1.
  assert (E1 : w1 = unmount w).
  { unfold w1, step. change (enabled w Unmount) with (mounted w). rewrite Hm.
    change (dispatch w Unmount) with (unmount w).
    apply effects_unmounted. reflexivity. }
  split; [rewrite E1; split_and!; reflexivity|].
  intros es id o p k w2 Hp Hk.
  assert (Hm2 : mounted w2 = false) by (apply steps_unmounted; by rewrite E1).
  assert (Es : step w2 (Settle id o) = settle id o w2).
  { rewrite step_settle. apply effects_unmounted. by rewrite settle_mounted. }
  rewrite Es. split_and!.
  - by apply (settle_parked _ _ p).
  - by apply (settle_requests _ _ p).
  - intros uid d -> ->. rewrite (settle_requests _ _ _ _ _ Hp Hk).
    simpl in Hk. by injection Hk as <-.
Qed.

Lemma unmount_cancels_no_request_witness :
  let w2 := steps (step (steps (mount (Some 1)) Sample.unmountTrace) Unmount) [] in
  requests (step w2 (Settle 5 Sample.okA)) = requests w2 ++ [markAsRead 1].
Proof.
  assert (Hm : mounted (steps (mount (Some 1)) Sample.unmountTrace) = true)
    by (vm_compute; reflexivity).
  assert (Hp : pending (steps (step (steps (mount (Some 1)) Sample.unmountTrace)
                                 Unmount) []) !! 5%nat
               = Some (fetchMessages 1))
    by (vm_compute; reflexivity).
  destruct (unmount_cancels_no_request _ Hm) as [_ H].
  destruct (H [] 5%nat Sample.okA (fetchMessages 1) _ Hp eq_refl) as (_ & _ & H3).
  exact (H3 1 _ eq_refl eq_refl).
Defined.

(** ** The contents of a conversation row *)

(** X13. A conversation row fails to render exactly when there is a latest
    message whose timestamp cannot be formatted; a conversation without a
    message always renders.  In a row that renders the preview is never
    empty: a latest message with empty content is previewed as
    "No messages", the same as no message at all, although its time is
    shown.  The title is empty only when the phone number is empty and the
    name is missing or empty. *)
Theorem conversation_row_texts
    (formatTime : jsstring -> option jsstring) (c : Conversation.t) :
  (ConversationItem formatTime c = None <->
   exists m, Conversation.latest_message c = Some m /\
             formatTime (Message.timestamp m) = None) /\
  forall r, ConversationItem formatTime c = Some r ->
    truthy (Item.preview r) = true /\
    (Item.title r = [] <->
       User.phone (Conversation.user c) = [] /\
       (User.name (Conversation.user c) = None \/
        User.name (Conversation.user c) = Some [])) /\
    (Conversation.latest_message c = None ->
       Item.time r = None /\ Item.preview r = lit "No messages") /\
    (forall m, Conversation.latest_message c = Some m ->
       Item.time r = formatTime (Message.timestamp m) /\
       is_Some (Item.time r) /\
       (Message.content m = [] -> Item.preview r = lit "No messages") /\
       (Message.content m <> [] -> Item.preview r = Message.content m)).
Proof.
  unfold ConversationItem. split.
  - destruct (Conversation.latest_message c) as [m|].
    + destruct (formatTime (Message.timestamp m)) eqn:E.
      * split; [done|]. intros (m' & [= <-] & H). congruence.
      * split; [|done]. intros _. by exists m.
    + split; [done|]. by intros (m & ? & _).
  - intros r Hr.
    assert (Ht : Item.title r = [] <->
              User.phone (Conversation.user c) = [] /\
              (User.name (Conversation.user c) = None \/
               User.name (Conversation.user c) = Some [])).
    { assert (Item.title r =
              match User.name (Conversation.user c) with
              | Some n => if truthy n then n else User.phone (Conversation.user c)
              | None => User.phone (Conversation.user c)
              end) as ->.
      { destruct (Conversation.latest_message c) as [m|];
          [destruct (formatTime _)|]; by simplify_eq. }
      destruct (User.name (Conversation.user c)) as [[|x n]|]; simpl.
      - split; [intros ->; auto | by intros [-> _]].
      - split; [done | by intros [_ [|]]].
      - split; [intros ->; auto | by intros [-> _]]. }
    destruct (Conversation.latest_message c) as [m|].
    + destruct (formatTime (Message.timestamp m)) as [t|] eqn:E; [|done].
      injection Hr as <-. simpl. split_and!; [|done|done|].
      * by destruct (Message.content m).
      * intros m' [= <-]. rewrite E. split_and!; [done|by eexists| |].
        -- by intros ->.
        -- by destruct (Message.content m).
    + injection Hr as <-. simpl. split_and!; done.
Qed.

Lemma conversation_row_texts_witness :
  let m := Message.mk 7 1 [] user (lit "2024-01-01T10:00:00") false in
  let c := Conversation.mk Sample.alice (Some m) 0 in
  let r := Item.mk 0 (lit "Alice") false (lit "No messages") (Some (lit "10:00")) in
  Item.time r = Some (take 5 (drop 11 (Message.timestamp m))) /\
  Item.preview r = lit "No messages".
Proof.
  intros m c r.
  destruct (conversation_row_texts (fun ts => Some (take 5 (drop 11 ts))) c)
    as [_ H].
  destruct (H r eq_refl) as (_ & _ & _ & Hm).
  destruct (Hm m eq_refl) as (Ht & _ & Hp & _).
  split; [exact Ht | exact (Hp eq_refl)].
Defined.
